(** * Verification of the BusinessGlance widgets, Stripe client fabric,
      snapshot store and webhook intake (package [glance]).

    Shallow embedding of the Go sources under [internal/glance] and of the
    webhook handler.  Go [float64] arithmetic is modelled by exact rationals
    ([Q]); Go [string] by [String.string] (a byte string); [time.Time] by an
    integer number of nanoseconds ([Z]); a Go [map] by stdpp's [gmap]. *)

From Stdlib Require Import ZArith QArith Qround String Ascii List Lia Sorting.Sorted.
From stdpp Require Import base gmap strings.
From Stdlib Require Import Lqa.
Import ListNotations.

Open Scope string_scope.

(** Result of a Go call: a value, an [error], or a run-time panic
    (nil dereference, slice bounds out of range). *)
Inductive outcome (A : Type) : Type :=
| Ok (a : A)
| Err (msg : string)
| Panic.
Arguments Ok {A} a.
Arguments Err {A} msg.
Arguments Panic {A}.

(* ------------------------------------------------------------------ *)
(** ** Monthly recurring revenue ([widget-revenue.go]) *)

Module Revenue.

Open Scope Q_scope.

(** [stripe.PriceRecurring]: [Interval] and [IntervalCount]. *)
Record PriceRecurring := mkRecurring {
  Interval : string;
  IntervalCount : Z
}.

(** [stripe.Price]: [UnitAmount] in minor units; [Recurring] is a pointer
    and may be nil. *)
Record Price := mkPrice {
  UnitAmount : Z;
  Recurring : option PriceRecurring
}.

(** [stripe.SubscriptionItem]: [Price] is a pointer and may be nil. *)
Record SubscriptionItem := mkItem {
  ItemPrice : option Price;
  Quantity : Z
}.

Record Subscription := mkSubscription {
  Items : list SubscriptionItem
}.

(** What [subscription.List] yields: the subscriptions iterated, then the
    iterator's [Err()]. *)
Record SubscriptionIter := mkIter {
  iterated : list Subscription;
  iterErr : option string
}.

(** The [switch interval] of [calculateMRR]: [None] is the [default] branch
    ([continue]). *)
Definition monthlyAmount (amount : Q) (interval : string) (intervalCount : Z)
  : option Q :=
  if String.eqb interval "month" then Some (amount / inject_Z intervalCount)
  else if String.eqb interval "year" then
    Some (amount / (12 * inject_Z intervalCount))
  else if String.eqb interval "week" then
    Some (amount * (433 # 100) / inject_Z intervalCount)
  else if String.eqb interval "day" then
    Some (amount * 30 / inject_Z intervalCount)
  else None.

(** Inner loop [for _, item := range sub.Items.Data]. *)
Fixpoint sumItems (totalMRR : Q) (items : list SubscriptionItem) : outcome Q :=
  match items with
  | [] => Ok totalMRR
  | item :: rest =>
      match ItemPrice item with
      | None => sumItems totalMRR rest
      | Some p =>
          let amount := inject_Z (UnitAmount p) / 100 in
          match Recurring p with
          | None => Panic  (* item.Price.Recurring.Interval on a nil pointer *)
          | Some r =>
              match monthlyAmount amount (Interval r) (IntervalCount r) with
              | None => sumItems totalMRR rest
              | Some m => sumItems (totalMRR + m * inject_Z (Quantity item)) rest
              end
          end
      end
  end.

(** Outer loop [for iter.Next()]. *)
Fixpoint sumSubscriptions (totalMRR : Q) (subs : list Subscription) : outcome Q :=
  match subs with
  | [] => Ok totalMRR
  | sub :: rest =>
      match sumItems totalMRR (Items sub) with
      | Ok t => sumSubscriptions t rest
      | Err e => Err e
      | Panic => Panic
      end
  end.

(** [revenueWidget.calculateMRR] on the active subscriptions listed. *)
Definition calculateMRR (it : SubscriptionIter) : outcome Q :=
  match sumSubscriptions 0 (iterated it) with
  | Ok total =>
      match iterErr it with
      | Some e => Err ("failed to list subscriptions: " ++ e)
      | None => Ok total
      end
  | Err e => Err e
  | Panic => Panic
  end.

(** The revenue metrics of [revenueWidget]. *)
Record revenueWidget := mkRevenueWidget {
  CurrentMRR : Q;
  PreviousMRR : Q;
  GrowthRate : Q;
  ARR : Q;
  NewMRR : Q;
  ChurnedMRR : Q;
  NetNewMRR : Q
}.

(** Lines 96-102 of [update]: on an error the update stops
    ([canContinueUpdateAfterHandlingErr] is false, [None]); otherwise
    [CurrentMRR] and [ARR = currentMRR * 12] are stored. *)
Definition updateMRR (w : revenueWidget) (r : outcome Q) : option revenueWidget :=
  match r with
  | Ok currentMRR =>
      Some {| CurrentMRR := currentMRR; PreviousMRR := PreviousMRR w;
              GrowthRate := GrowthRate w; ARR := currentMRR * 12;
              NewMRR := NewMRR w; ChurnedMRR := ChurnedMRR w;
              NetNewMRR := NetNewMRR w |}
  | _ => None
  end.

(** The normalisation the spec states, written from the spec's words:
    K(day) = 30, K(week) = 4.33, K(month) = 1, K(year) = 1/12. *)
Definition K_spec (interval : string) : option Q :=
  if String.eqb interval "day" then Some 30
  else if String.eqb interval "week" then Some (433 # 100)
  else if String.eqb interval "month" then Some 1
  else if String.eqb interval "year" then Some (1 # 12)
  else None.

(** Spec: sum over items of (amount / 100) * quantity * K(interval) /
    intervalCount, unknown intervals contributing nothing. *)
Fixpoint mrr_spec (items : list SubscriptionItem) : Q :=
  match items with
  | [] => 0
  | item :: rest =>
      let contrib :=
        match ItemPrice item with
        | Some p =>
            match Recurring p with
            | Some r =>
                match K_spec (Interval r) with
                | Some k => inject_Z (UnitAmount p) / 100 * inject_Z (Quantity item)
                            * k / inject_Z (IntervalCount r)
                | None => 0
                end
            | None => 0
            end
        | None => 0
        end in
      contrib + mrr_spec rest
  end.

(** A well-formed recurring subscription item. *)
Definition item_ok (item : SubscriptionItem) : Prop :=
  exists p r, ItemPrice item = Some p /\ Recurring p = Some r /\
              (1 <= IntervalCount r)%Z /\ (1 <= Quantity item)%Z.

Definition all_items (subs : list Subscription) : list SubscriptionItem :=
  concat (map Items subs).

End Revenue.

(* ------------------------------------------------------------------ *)
(** ** Circuit breaker ([stripe_client.go]) *)

Module Breaker.

Inductive CircuitState := CircuitClosed | CircuitOpen | CircuitHalfOpen.

Definition CircuitState_eqb (a b : CircuitState) : bool :=
  match a, b with
  | CircuitClosed, CircuitClosed | CircuitOpen, CircuitOpen
  | CircuitHalfOpen, CircuitHalfOpen => true
  | _, _ => false
  end.

(** [CircuitBreaker]; [maxFailures] and [failures] are [uint32], times and
    durations are nanoseconds. *)
Record CircuitBreaker := mkBreaker {
  maxFailures : Z;
  resetTimeout : Z;
  failures : Z;
  lastFailTime : Z;
  state : CircuitState
}.

Definition uint32_wrap (z : Z) : Z := Z.modulo z (2 ^ 32).

Definition second : Z := 1000000000.

(** The breaker [GetClient] attaches to a fresh client wrapper. *)
Definition newBreaker : CircuitBreaker :=
  mkBreaker 5 (60 * second) 0 0 CircuitClosed.

Definition set_state (cb : CircuitBreaker) (s : CircuitState) (f : Z) : CircuitBreaker :=
  mkBreaker (maxFailures cb) (resetTimeout cb) f (lastFailTime cb) s.

(** [CanExecute] at time [now]: the answer and the breaker afterwards. *)
Definition CanExecute (now : Z) (cb : CircuitBreaker) : bool * CircuitBreaker :=
  match state cb with
  | CircuitClosed => (true, cb)
  | CircuitOpen =>
      if Z.gtb (now - lastFailTime cb) (resetTimeout cb)
      then (true, set_state cb CircuitHalfOpen 0)
      else (false, cb)
  | CircuitHalfOpen => (true, cb)
  end.

(** [RecordSuccess]. *)
Definition RecordSuccess (cb : CircuitBreaker) : CircuitBreaker :=
  match state cb with
  | CircuitHalfOpen => set_state cb CircuitClosed 0
  | _ => cb
  end.

(** [RecordFailure] at time [now]. *)
Definition RecordFailure (now : Z) (cb : CircuitBreaker) : CircuitBreaker :=
  let f := uint32_wrap (failures cb + 1) in
  let st :=
    if Z.geb f (maxFailures cb) then
      (if negb (CircuitState_eqb (state cb) CircuitOpen) then CircuitOpen
       else state cb)
    else state cb in
  mkBreaker (maxFailures cb) (resetTimeout cb) f now st.

End Breaker.

(* ------------------------------------------------------------------ *)
(** ** Snapshot store ([SimpleMetricsDB]) *)

Module Store.

Open Scope Z_scope.

Record RevenueSnapshot := mkRevenueSnapshot {
  rsTimestamp : Z;
  rsMRR : Q;
  rsARR : Q;
  rsGrowthRate : Q;
  rsNewMRR : Q;
  rsChurnedMRR : Q;
  rsMode : string
}.

Record CustomerSnapshot := mkCustomerSnapshot {
  csTimestamp : Z;
  csTotalCustomers : Z;
  csNewCustomers : Z;
  csChurnedCustomers : Z;
  csChurnRate : Q;
  csActiveCustomers : Z;
  csMode : string
}.

(** [SimpleMetricsDB]: one history per kind, keyed by mode.  [maxHistory]
    is the Go [int] field; [GetSimpleMetricsDB] sets it to 100. *)
Record SimpleMetricsDB := mkDB {
  revenueHistory : gmap string (list RevenueSnapshot);
  customerHistory : gmap string (list CustomerSnapshot);
  maxHistory : nat
}.

Definition GetSimpleMetricsDB : SimpleMetricsDB := mkDB ∅ ∅ 100.

(** The body shared by both [Save...Snapshot] methods: append, then keep
    [h[len(h)-maxHistory:]] when the history is longer than [maxHistory]. *)
Definition appendBounded {S : Type} (maxH : nat) (h : list S) (s : S) : list S :=
  let h' := (h ++ [s])%list in
  if Nat.ltb maxH (length h') then drop (length h' - maxH) h' else h'.

Definition SaveRevenueSnapshot (db : SimpleMetricsDB) (s : RevenueSnapshot)
  : SimpleMetricsDB :=
  let mode := rsMode s in
  let h := default [] (revenueHistory db !! mode) in
  mkDB (<[mode := appendBounded (maxHistory db) h s]> (revenueHistory db))
       (customerHistory db) (maxHistory db).

Definition SaveCustomerSnapshot (db : SimpleMetricsDB) (s : CustomerSnapshot)
  : SimpleMetricsDB :=
  let mode := csMode s in
  let h := default [] (customerHistory db !! mode) in
  mkDB (revenueHistory db)
       (<[mode := appendBounded (maxHistory db) h s]> (customerHistory db))
       (maxHistory db).

(** The range test of both [Get...History] methods:
    [(t.Equal(start) || t.After(start)) && (t.Equal(end) || t.Before(end))]. *)
Definition inRange (startTime endTime t : Z) : bool :=
  (Z.eqb t startTime || Z.ltb startTime t) && (Z.eqb t endTime || Z.ltb t endTime).

Definition GetRevenueHistory (db : SimpleMetricsDB) (mode : string)
  (startTime endTime : Z) : list RevenueSnapshot :=
  match revenueHistory db !! mode with
  | None => []
  | Some history =>
      List.filter (fun s => inRange startTime endTime (rsTimestamp s)) history
  end.

Definition GetCustomerHistory (db : SimpleMetricsDB) (mode : string)
  (startTime endTime : Z) : list CustomerSnapshot :=
  match customerHistory db !! mode with
  | None => []
  | Some history =>
      List.filter (fun s => inRange startTime endTime (csTimestamp s)) history
  end.

(** A sequence of save calls on the store. *)
Inductive SaveOp :=
| SaveRevenue (s : RevenueSnapshot)
| SaveCustomer (s : CustomerSnapshot).

Definition op_time (o : SaveOp) : Z :=
  match o with SaveRevenue s => rsTimestamp s | SaveCustomer s => csTimestamp s end.

Definition apply_op (db : SimpleMetricsDB) (o : SaveOp) : SimpleMetricsDB :=
  match o with
  | SaveRevenue s => SaveRevenueSnapshot db s
  | SaveCustomer s => SaveCustomerSnapshot db s
  end.

Definition run_ops (db : SimpleMetricsDB) (ops : list SaveOp) : SimpleMetricsDB :=
  fold_left apply_op ops db.

(** The snapshots of one (kind, mode) key among the saves, in call order. *)
Fixpoint revenue_saves (mode : string) (ops : list SaveOp) : list RevenueSnapshot :=
  match ops with
  | [] => []
  | SaveRevenue s :: rest =>
      if String.eqb (rsMode s) mode then s :: revenue_saves mode rest
      else revenue_saves mode rest
  | SaveCustomer _ :: rest => revenue_saves mode rest
  end.

Fixpoint customer_saves (mode : string) (ops : list SaveOp) : list CustomerSnapshot :=
  match ops with
  | [] => []
  | SaveCustomer s :: rest =>
      if String.eqb (csMode s) mode then s :: customer_saves mode rest
      else customer_saves mode rest
  | SaveRevenue _ :: rest => customer_saves mode rest
  end.

(** The last [n] elements of a list. *)
Definition lastn {A : Type} (n : nat) (l : list A) : list A := drop (length l - n) l.

End Store.

(* ------------------------------------------------------------------ *)
(** ** Stripe client pool ([GetClient]) *)

Module Pool.
Import Breaker.

(** [RateLimiter]: a token bucket. *)
Record RateLimiter := mkRateLimiter {
  tokens : Q;
  maxTokens : Q;
  refillRate : Q;
  lastRefill : Z
}.

(** [StripeClientWrapper]; [client] is the [client.API] built by
    [sc.Init(apiKey, nil)], which carries that key. *)
Record StripeClientWrapper := mkWrapper {
  clientKey : string;
  apiKey : string;
  mode : string;
  circuitBreaker : CircuitBreaker;
  rateLimiter : RateLimiter;
  lastUsed : Z
}.

(** [StripeClientPool]: the [sync.Map] from cache key to wrapper pointer,
    and the heap of wrappers those pointers designate. *)
Record StripeClientPool := mkPool {
  clients : gmap string nat;
  heap : gmap nat StripeClientWrapper;
  next_ptr : nat
}.

Definition GetStripeClientPool : StripeClientPool := mkPool ∅ ∅ 0.

(** Go's [s[:n]]: a run-time panic when [n > len(s)]. *)
Definition slice_prefix (s : string) (n : nat) : outcome string :=
  if Nat.ltb (String.length s) n then Panic else Ok (String.substring 0 n s).

(** [GetClient] at time [now]: the wrapper pointer returned, and the pool
    afterwards. *)
Definition GetClient (now : Z) (p : StripeClientPool) (apiKey mode : string)
  : outcome nat * StripeClientPool :=
  if String.eqb apiKey "" then (Err "stripe API key is required", p)
  else
    match slice_prefix apiKey 12 with
    | Panic => (Panic, p)
    | Err e => (Err e, p)
    | Ok prefix =>
        let cacheKey := mode ++ ":" ++ prefix in
        match clients p !! cacheKey with
        | Some ptr =>
            let heap' :=
              match heap p !! ptr with
              | Some w =>
                  <[ptr := mkWrapper (clientKey w) (Pool.apiKey w) (Pool.mode w)
                                     (circuitBreaker w) (rateLimiter w) now]> (heap p)
              | None => heap p
              end in
            (Ok ptr, mkPool (clients p) heap' (next_ptr p))
        | None =>
            let wrapper :=
              mkWrapper apiKey apiKey mode newBreaker
                        (mkRateLimiter 100 100 10 now) now in
            let ptr := next_ptr p in
            (Ok ptr, mkPool (<[cacheKey := ptr]> (clients p))
                            (<[ptr := wrapper]> (heap p)) (S ptr))
        end
    end.

Definition cacheKeyOf (apiKey mode : string) : string :=
  mode ++ ":" ++ String.substring 0 12 apiKey.

End Pool.

(* ------------------------------------------------------------------ *)
(** ** Webhook intake ([WebhookHandler]) *)

Module Webhook.

(** [stripe.Event]; [evRawDecodes] says whether [Data.Raw] unmarshals into
    the object the handlers expect. *)
Record Event := mkEvent {
  evID : string;
  evType : string;
  evLivemode : bool;
  evRawDecodes : bool
}.

Record WebhookEvent := mkWebhookEvent {
  weID : string;
  weType : string;
  weProcessed : Z;
  weSuccess : bool;
  weError : string
}.

(** [EventHandlerFunc]: [None] is a nil error.  The handlers' writes to the
    metrics store are not modelled. *)
Definition EventHandlerFunc := Event -> option string.

(** [CacheInvalidator.InvalidateCache]: the error it returns for a widget
    type. *)
Definition CacheInvalidator := string -> option string.

Record WebhookHandler := mkHandler {
  secret : string;
  eventHandlers : gmap string (list EventHandlerFunc);
  eventLog : list WebhookEvent;
  maxEventLog : nat;
  cacheInvalidator : option CacheInvalidator
}.

(** The observable world: the handler, the [InvalidateCache] calls made
    (event type, widget type), and the [processEvent] goroutines started by
    [HandleWebhook] and not yet run. *)
Record World := mkWorld {
  handler : WebhookHandler;
  invalidations : list (string * string);
  pending : list Event
}.

Definition RegisterHandler (eventType : string) (h : EventHandlerFunc)
  (wh : WebhookHandler) : WebhookHandler :=
  let hs := default [] (eventHandlers wh !! eventType) in
  mkHandler (secret wh) (<[eventType := (hs ++ [h])%list]> (eventHandlers wh))
            (eventLog wh) (maxEventLog wh) (cacheInvalidator wh).

(** The default handlers: unmarshal [Data.Raw], log, return nil. *)
Definition unmarshalling (what : string) : EventHandlerFunc :=
  fun ev => if evRawDecodes ev then None
            else Some ("failed to unmarshal " ++ what).

Definition handleSubscriptionCreated := unmarshalling "subscription".
Definition handleSubscriptionUpdated := unmarshalling "subscription".
Definition handleSubscriptionDeleted := unmarshalling "subscription".
Definition handleCustomerCreated := unmarshalling "customer".
Definition handleCustomerDeleted := unmarshalling "customer".
Definition handleInvoicePaymentSucceeded := unmarshalling "invoice".
Definition handleInvoicePaymentFailed := unmarshalling "invoice".

Definition GetWebhookHandler (secret : string) (invalidator : option CacheInvalidator)
  : WebhookHandler :=
  RegisterHandler "invoice.payment_failed" handleInvoicePaymentFailed
  (RegisterHandler "invoice.payment_succeeded" handleInvoicePaymentSucceeded
  (RegisterHandler "customer.deleted" handleCustomerDeleted
  (RegisterHandler "customer.created" handleCustomerCreated
  (RegisterHandler "customer.subscription.deleted" handleSubscriptionDeleted
  (RegisterHandler "customer.subscription.updated" handleSubscriptionUpdated
  (RegisterHandler "customer.subscription.created" handleSubscriptionCreated
     (mkHandler secret ∅ [] 100 invalidator))))))).

(** The [switch] of [invalidateCachesForEvent]: the widget type whose
    cache the event invalidates. *)
Definition invalidationTarget (eventType : string) : option string :=
  if String.eqb eventType "customer.subscription.created" ||
     String.eqb eventType "customer.subscription.updated" ||
     String.eqb eventType "customer.subscription.deleted" ||
     String.eqb eventType "invoice.payment_succeeded" ||
     String.eqb eventType "invoice.payment_failed"
  then Some "revenue"
  else if String.eqb eventType "customer.created" ||
          String.eqb eventType "customer.deleted" ||
          String.eqb eventType "customer.updated"
  then Some "customers"
  else None.

(** [invalidateCachesForEvent] with invalidator [inv]: the calls made and
    the error returned. *)
Definition invalidateCachesForEvent (inv : CacheInvalidator) (eventType : string)
  : list (string * string) * option string :=
  match invalidationTarget eventType with
  | Some widgetType => ([(eventType, widgetType)], inv widgetType)
  | None => ([], None)
  end.

(** [logEvent]: append, keep the last [maxEventLog]. *)
Definition logEvent (e : WebhookEvent) (wh : WebhookHandler) : WebhookHandler :=
  mkHandler (secret wh) (eventHandlers wh)
            (Store.appendBounded (maxEventLog wh) (eventLog wh) e)
            (maxEventLog wh) (cacheInvalidator wh).

(** The handler loop: the last handler error wins. *)
Fixpoint runHandlers (hs : list EventHandlerFunc) (ev : Event) (we : WebhookEvent)
  : WebhookEvent :=
  match hs with
  | [] => we
  | h :: rest =>
      match h ev with
      | Some err => runHandlers rest ev (mkWebhookEvent (weID we) (weType we)
                                           (weProcessed we) false err)
      | None => runHandlers rest ev we
      end
  end.

(** [processEvent] at time [now]. *)
Definition processEvent (now : Z) (ev : Event) (w : World) : World :=
  let eventTypeStr := evType ev in
  let webhookEvent := mkWebhookEvent (evID ev) eventTypeStr now true "" in
  let wh := handler w in
  match eventHandlers wh !! eventTypeStr with
  | None | Some [] => w
  | Some handlers =>
      let we := runHandlers handlers ev webhookEvent in
      let calls :=
        match cacheInvalidator wh with
        | Some inv => fst (invalidateCachesForEvent inv eventTypeStr)
        | None => []
        end in
      mkWorld (logEvent we wh) (invalidations w ++ calls)%list (pending w)
  end.

(** An HTTP request: method, body ([None]: reading it fails), and the
    [Stripe-Signature] header. *)
Record Request := mkRequest {
  rqMethod : string;
  rqBody : option string;
  rqSignature : string
}.

Inductive JValue := JBool (b : bool) | JString (s : string).

Inductive RespBody :=
| TextBody (s : string)
| JSONBody (fields : list (string * JValue)).

Record Response := mkResponse {
  status : Z;
  body : RespBody
}.

(** [webhook.ConstructEvent(payload, signature, secret)]: the event when
    the signature verifies against the secret, [None] otherwise. *)
Definition ConstructEventFn := string -> string -> string -> option Event.

(** [HandleWebhook]: the reply, and the world afterwards ([go
    wh.processEvent(event)] adds a pending goroutine). *)
Definition HandleWebhook (constructEvent : ConstructEventFn) (w : World) (r : Request)
  : Response * World :=
  if negb (String.eqb (rqMethod r) "POST") then
    (mkResponse 405 (TextBody "Method not allowed"), w)
  else
    match rqBody r with
    | None => (mkResponse 400 (TextBody "Failed to read request body"), w)
    | Some payload =>
        match constructEvent payload (rqSignature r) (secret (handler w)) with
        | None => (mkResponse 401 (TextBody "Invalid signature"), w)
        | Some event =>
            (mkResponse 200 (JSONBody [("event_id", JString (evID event));
                                       ("received", JBool true)]),
             mkWorld (handler w) (invalidations w) (pending w ++ [event])%list)
        end
    end.

(** Running the pending goroutines in order, at time [now]. *)
Fixpoint runEvents (now : Z) (evs : list Event) (w : World) : World :=
  match evs with
  | [] => w
  | ev :: rest => runEvents now rest (processEvent now ev w)
  end.

End Webhook.

(* ------------------------------------------------------------------ *)
(** ** Customer metrics: churn, LTV and LTV/CAC ([widget-customers.go]) *)

Module Customers.
Import Store.
Open Scope Q_scope.

(** Go's [a < b] on [float64]. *)
Definition qlt (a b : Q) : bool := negb (Qle_bool b a).

Fixpoint lastSnapshot (h : list RevenueSnapshot) : option RevenueSnapshot :=
  match h with
  | [] => None
  | [s] => Some s
  | _ :: rest => lastSnapshot rest
  end.

(** [SimpleMetricsDB.GetLatestRevenue]. *)
Definition GetLatestRevenue (db : SimpleMetricsDB) (mode : string)
  : option RevenueSnapshot :=
  match revenueHistory db !! mode with
  | None => None
  | Some history => lastSnapshot history
  end.

Record customersWidget := mkCustomersWidget {
  StripeMode : string;
  TotalCustomers : Z;
  NewCustomers : Z;
  ChurnedCustomers : Z;
  ChurnRate : Q;
  ActiveCustomers : Z;
  CAC : Q;
  LTV : Q;
  LTVtoCAC : Q
}.

(** Lines 127-196 of [customersWidget.update], after the counts have been
    fetched.  [db] is the store [GetMetricsDatabase] returned ([None]: it
    returned an error; the Go function never does), [currentMRR] the result
    of [calculateCurrentMRRWithRetry] (only consulted in the fallback
    branches), [cacEnv] the value [strconv.ParseFloat] gives for a set
    [BUSINESS_CAC] ([None]: unset, empty or unparsable). *)
Definition updateLTV (w : customersWidget) (db : option SimpleMetricsDB)
  (currentMRR : outcome Q) (cacEnv : option Q) : customersWidget :=
  let churnRate :=
    if Z.ltb 0 (TotalCustomers w)
    then inject_Z (ChurnedCustomers w) / inject_Z (TotalCustomers w) * 100
    else ChurnRate w in
  let active := inject_Z (ActiveCustomers w) in
  let fresh :=
    match currentMRR with
    | Ok m => if qlt 0 m then m / active else 29
    | _ => 29
    end in
  let ltv :=
    if Z.ltb 0 (ActiveCustomers w) && qlt 0 churnRate then
      let avgRevenuePerCustomer :=
        match db with
        | Some d =>
            match GetLatestRevenue d (StripeMode w) with
            | Some snap => if qlt 0 (rsMRR snap) then rsMRR snap / active else fresh
            | None => fresh
            end
        | None => fresh
        end in
      let monthlyChurnRate := churnRate / 100 in
      if qlt 0 monthlyChurnRate then avgRevenuePerCustomer / monthlyChurnRate
      else LTV w
    else LTV w in
  let cac := match cacEnv with Some v => v | None => CAC w end in
  let ltvToCac := if qlt 0 cac then ltv / cac else LTVtoCAC w in
  mkCustomersWidget (StripeMode w) (TotalCustomers w) (NewCustomers w)
    (ChurnedCustomers w) churnRate (ActiveCustomers w) cac ltv ltvToCac.

(** The spec's formula: MRRnow / Active / (ChurnRate / 100). *)
Definition ltv_spec (mrrNow : Q) (active : Z) (churnRate : Q) : Q :=
  mrrNow / inject_Z active / (churnRate / 100).

End Customers.

(* ------------------------------------------------------------------ *)
(** ** [encoding/base64] [StdEncoding], as [encryption.go] uses it *)

Module Base64.
Open Scope Z_scope.

Definition alphabet : list ascii :=
  list_ascii_of_string
    "ABCDEFGHIJKLMNOPQRSTUVWXYZabcdefghijklmnopqrstuvwxyz0123456789+/".

Definition padChar : ascii := "="%char.

(** A byte and its value. *)
Definition byteZ (a : ascii) : Z := Z.of_N (N_of_ascii a).
Definition zbyte (z : Z) : ascii := ascii_of_N (Z.to_N z).

(** [encode[v]] for a 6-bit value [v]. *)
Definition enc6 (v : Z) : ascii := nth (Z.to_nat v) alphabet "A"%char.

Fixpoint index_of (c : ascii) (l : list ascii) (i : Z) : option Z :=
  match l with
  | [] => None
  | d :: rest => if Ascii.eqb c d then Some i else index_of c rest (i + 1)
  end.

(** The decode map: [None] for a byte outside the alphabet. *)
Definition dec6 (c : ascii) : option Z := index_of c alphabet 0.

(** [EncodeToString]: each 3-byte group [val = a<<16 | b<<8 | c] gives the
    characters [encode[val>>18&0x3F]], ..., [encode[val&0x3F]] (shifts and
    masks written as division and remainder by powers of two); a final
    partial group is padded with '='. *)
Fixpoint encode (l : list ascii) : list ascii :=
  match l with
  | a :: b :: c :: rest =>
      let n := 65536 * byteZ a + 256 * byteZ b + byteZ c in
      enc6 (n / 262144 mod 64) :: enc6 (n / 4096 mod 64) ::
      enc6 (n / 64 mod 64) :: enc6 (n mod 64) :: encode rest
  | [a; b] =>
      let n := 65536 * byteZ a + 256 * byteZ b in
      [enc6 (n / 262144 mod 64); enc6 (n / 4096 mod 64); enc6 (n / 64 mod 64); padChar]
  | [a] =>
      let n := 65536 * byteZ a in
      [enc6 (n / 262144 mod 64); enc6 (n / 4096 mod 64); padChar; padChar]
  | [] => []
  end.

(** Decoding of the quanta of four characters: padding only in the last
    quantum ("xx==" or "xxx="), an incomplete quantum is an error. *)
Fixpoint decodeQuanta (l : list ascii) : option (list ascii) :=
  match l with
  | [] => Some []
  | c0 :: c1 :: c2 :: c3 :: rest =>
      match dec6 c0, dec6 c1 with
      | Some v0, Some v1 =>
          if Ascii.eqb c3 padChar then
            match rest with
            | [] =>
                if Ascii.eqb c2 padChar then
                  let n := v0 * 262144 + v1 * 4096 in
                  Some [zbyte (n / 65536)]
                else
                  match dec6 c2 with
                  | Some v2 =>
                      let n := v0 * 262144 + v1 * 4096 + v2 * 64 in
                      Some [zbyte (n / 65536); zbyte (n / 256 mod 256)]
                  | None => None
                  end
            | _ :: _ => None
            end
          else
            match dec6 c2, dec6 c3 with
            | Some v2, Some v3 =>
                let n := v0 * 262144 + v1 * 4096 + v2 * 64 + v3 in
                match decodeQuanta rest with
                | Some r => Some (zbyte (n / 65536) :: zbyte (n / 256 mod 256) ::
                                  zbyte (n mod 256) :: r)
                | None => None
                end
            | _, _ => None
            end
      | _, _ => None
      end
  | _ => None
  end.

(** [DecodeString]: '\r' and '\n' are skipped, then the quanta decoded. *)
Definition isNewline (c : ascii) : bool :=
  Ascii.eqb c (ascii_of_nat 10) || Ascii.eqb c (ascii_of_nat 13).

Definition DecodeString (s : string) : option (list ascii) :=
  decodeQuanta (List.filter (fun c => negb (isNewline c)) (list_ascii_of_string s)).

Definition EncodeToString (l : list ascii) : string := string_of_list_ascii (encode l).

End Base64.

(* ------------------------------------------------------------------ *)
(** ** Encryption of API keys ([encryption.go]) *)

Module Encryption.
Import Base64.

Section AESGCM.

(** AES-256-GCM ([aes.NewCipher] + [cipher.NewGCM]): [gcm_seal key nonce
    plaintext] is the sealed ciphertext (with its tag), [gcm_open] returns
    the plaintext when authentication succeeds. *)
Variable gcm_seal : list ascii -> list ascii -> list ascii -> list ascii.
Variable gcm_open : list ascii -> list ascii -> list ascii -> option (list ascii).

Definition nonceSize : nat := 12.

(** [EncryptionService]: the derived key and the plaintext -> encoding
    cache. *)
Record EncryptionService := mkService {
  key : list ascii;
  cached : gmap string string
}.

(** [aes.NewCipher] accepts 16-, 24- and 32-byte keys. *)
Definition keyOk (k : list ascii) : bool :=
  Nat.eqb (length k) 16 || Nat.eqb (length k) 24 || Nat.eqb (length k) 32.

(** [Encrypt], reading the nonce from the random stream [rand]
    ([io.ReadFull] fails when fewer than [nonceSize] bytes are left). *)
Definition Encrypt (e : EncryptionService) (rand : list ascii) (plaintext : string)
  : outcome string * EncryptionService :=
  if String.eqb plaintext "" then (Ok "", e)
  else
    match cached e !! plaintext with
    | Some c => (Ok c, e)
    | None =>
        if negb (keyOk (key e)) then (Err "failed to create cipher", e)
        else if Nat.ltb (length rand) nonceSize then (Err "failed to generate nonce", e)
        else
          let nonce := firstn nonceSize rand in
          let ciphertext := (nonce ++ gcm_seal (key e) nonce (list_ascii_of_string plaintext))%list in
          let encoded := EncodeToString ciphertext in
          (Ok encoded, mkService (key e) (<[plaintext := encoded]> (cached e)))
    end.

(** [Decrypt]. *)
Definition Decrypt (e : EncryptionService) (ciphertext : string) : outcome string :=
  if String.eqb ciphertext "" then Ok ""
  else
    match DecodeString ciphertext with
    | None => Err "failed to decode base64"
    | Some data =>
        if negb (keyOk (key e)) then Err "failed to create cipher"
        else if Nat.ltb (length data) nonceSize then Err "ciphertext too short"
        else
          match gcm_open (key e) (firstn nonceSize data) (skipn nonceSize data) with
          | None => Err "failed to decrypt"
          | Some plaintext => Ok (string_of_list_ascii plaintext)
          end
    end.

Definition encPrefix : string := "encrypted:".

(** [len(value) > 10 && value[:10] == "encrypted:"]. *)
Definition isEncrypted (value : string) : bool :=
  Nat.ltb 10 (String.length value) && String.eqb (String.substring 0 10 value) encPrefix.

Definition EncryptIfNeeded (e : EncryptionService) (rand : list ascii) (value : string)
  : outcome string * EncryptionService :=
  if String.eqb value "" then (Ok "", e)
  else if isEncrypted value then (Ok value, e)
  else
    match Encrypt e rand value with
    | (Ok encrypted, e') => (Ok (encPrefix ++ encrypted), e')
    | (Err m, e') => (Err m, e')
    | (Panic, e') => (Panic, e')
    end.

Definition DecryptIfNeeded (e : EncryptionService) (value : string) : outcome string :=
  if String.eqb value "" then Ok ""
  else if isEncrypted value then
    Decrypt e (String.substring 10 (String.length value - 10) value)
  else Ok value.

End AESGCM.

End Encryption.

(* ------------------------------------------------------------------ *)
(** ** Key handling helpers ([encryption.go]) *)

Module Secrets.





(** [ValidateAPIKey]: [None] is a nil error.  The [||] short-circuits, so
    [key[:len(expectedPrefix)]] is only taken when it is in bounds. *)
Definition ValidateAPIKey (key expectedPrefix : string) : option string :=
  if String.eqb key "" then Some "API key is empty"
  else if Nat.ltb (String.length key) 20 then
    Some "API key is too short (minimum 20 characters)"
  else if negb (String.eqb expectedPrefix "") then
    if Nat.ltb (String.length key) (String.length expectedPrefix) ||
       negb (String.eqb (String.substring 0 (String.length expectedPrefix) key)
                        expectedPrefix)
    then Some ("API key must start with '" ++ expectedPrefix ++ "'")
    else None
  else None.


End Secrets.

(* ------------------------------------------------------------------ *)
(** ** Retries, rate limiting and pool maintenance ([stripe_client.go]) *)

Module Resilience.
Import Breaker Pool.
Open Scope Q_scope.

(** The errors a Stripe call returns: a [*stripe.Error] (HTTP status,
    error type, rendered message) or any other error (network errors). *)
Inductive StripeError :=
| NetworkError (msg : string)
| StripeAPIError (HTTPStatusCode : Z) (ErrType : string) (msg : string).

Definition errString (e : StripeError) : string :=
  match e with NetworkError m => m | StripeAPIError _ _ m => m end.

(** [isRetryableStripeError]; [None] is a nil error. *)
Definition isRetryableStripeError (err : option StripeError) : bool :=
  match err with
  | None => false
  | Some (NetworkError _) => true
  | Some (StripeAPIError code ty _) =>
      if Z.geb code 500 then true
      else if Z.eqb code 429 then true
      else if String.eqb ty "api_error" then true
      else if String.eqb ty "invalid_request_error" then false
      else if String.eqb ty "authentication_error" then false
      else if String.eqb ty "card_error" then false
      else if String.eqb ty "rate_limit_error" then true
      else true
  end.

(** [minFloat]. *)
Definition minFloat (a b : Q) : Q := if Customers.qlt a b then a else b.

(** Go's conversion of a [float64] to an integer type: truncation toward
    zero. *)
Definition float_trunc (x : Q) : Z :=
  if Qle_bool 0 x then Qfloor x else (- Qfloor (- x))%Z.

(** [int64] arithmetic wraps around. *)
Definition int64_wrap (z : Z) : Z := (Z.modulo (z + 2 ^ 63) (2 ^ 64) - 2 ^ 63)%Z.

(** [RateLimiter.Wait] at time [now].  [ctxDone] says whether the context
    is cancelled, in which case its [Done] case wins the [select].  The
    result, the limiter afterwards, and the duration given to
    [time.After] (0 when a token was available). *)
Definition Wait (now : Z) (ctxDone : bool) (rl : RateLimiter)
  : outcome unit * RateLimiter * Z :=
  let elapsed := inject_Z (now - lastRefill rl) / inject_Z second in
  let tokens1 := minFloat (maxTokens rl) (tokens rl + elapsed * refillRate rl) in
  if Qle_bool 1 tokens1 then
    (Ok tt, mkRateLimiter (tokens1 - 1) (maxTokens rl) (refillRate rl) now, 0%Z)
  else
    let waitTime :=
      int64_wrap (float_trunc ((1 - tokens1) / refillRate rl) * second)%Z in
    if ctxDone then
      (Err "context canceled", mkRateLimiter tokens1 (maxTokens rl) (refillRate rl) now,
       waitTime)
    else (Ok tt, mkRateLimiter 0 (maxTokens rl) (refillRate rl) now, waitTime).

(** Successive [Wait] calls (live context) at the times [times]: the
    result and the [time.After] duration of each. *)
Fixpoint waitSeq (times : list Z) (rl : RateLimiter) : list (outcome unit * Z) :=
  match times with
  | [] => []
  | t :: ts =>
      let '(r, rl', d) := Wait t false rl in (r, d) :: waitSeq ts rl'
  end.

Definition with_breaker (w : StripeClientWrapper) (cb : CircuitBreaker)
  : StripeClientWrapper :=
  mkWrapper (clientKey w) (apiKey w) (mode w) cb (rateLimiter w) (lastUsed w).

Definition with_limiter (w : StripeClientWrapper) (rl : RateLimiter)
  : StripeClientWrapper :=
  mkWrapper (clientKey w) (apiKey w) (mode w) (circuitBreaker w) rl (lastUsed w).

Definition errOpt (e : option StripeError) : string :=
  match e with Some e => errString e | None => "<nil>" end.

Definition maxRetries : nat := 3.

(** The [for attempt := 0; attempt <= maxRetries; attempt++] loop of
    [ExecuteWithRetry]: [remaining] iterations are left, [t] is the clock,
    [fn attempt] the error [fn()] returns at that attempt; the result, the
    breaker afterwards and the number of calls of [fn]. *)
Fixpoint retryLoop (operation : string) (fn : nat -> option StripeError)
  (ctxDone : bool) (remaining attempt : nat) (t : Z) (cb : CircuitBreaker)
  (lastErr : option StripeError) (calls : nat)
  : outcome unit * CircuitBreaker * nat :=
  match remaining with
  | O =>
      (Err ("stripe operation " ++ operation ++ " failed after 3 retries: " ++
            errOpt lastErr), cb, calls)
  | S r =>
      if Nat.ltb 0 attempt && ctxDone then (Err "context canceled", cb, calls)
      else
        let t' :=
          if Nat.ltb 0 attempt
          then (t + Z.shiftl 1 (Z.of_nat attempt - 1) * second)%Z else t in
        match fn attempt with
        | None => (Ok tt, RecordSuccess cb, S calls)
        | Some err =>
            if negb (isRetryableStripeError (Some err)) then
              (Err ("non-retryable Stripe error in " ++ operation ++ ": " ++
                    errString err), RecordFailure t' cb, S calls)
            else
              retryLoop operation fn ctxDone r (S attempt) t'
                        (RecordFailure t' cb) (Some err) (S calls)
        end
  end.

(** [StripeClientWrapper.ExecuteWithRetry] at time [now]: the error
    returned, the wrapper afterwards (its breaker and rate limiter), and
    the number of calls of [fn].  [fn] itself takes no time. *)
Definition ExecuteWithRetry (now : Z) (ctxDone : bool) (operation : string)
  (fn : nat -> option StripeError) (w : StripeClientWrapper)
  : outcome unit * StripeClientWrapper * nat :=
  let '(ok, cb) := CanExecute now (circuitBreaker w) in
  if negb ok then
    (Err "circuit breaker open for Stripe API: too many failures", with_breaker w cb, 0%nat)
  else
    let '(r, rl, waited) := Wait now ctxDone (rateLimiter w) in
    let w1 := with_limiter (with_breaker w cb) rl in
    match r with
    | Err m => (Err ("rate limit exceeded: " ++ m), w1, 0%nat)
    | Panic => (Panic, w1, 0%nat)
    | Ok _ =>
        let '(res, cb', calls) :=
          retryLoop operation fn ctxDone (S maxRetries) 0%nat (now + waited)%Z cb None 0%nat in
        (res, with_breaker w1 cb', calls)
    end.

(** [CleanupIdleClients] at time [now]: the entries whose wrapper has been
    idle longer than [maxIdleTime] are deleted from the [sync.Map]. *)
Definition keepClient (now maxIdleTime : Z) (hp : gmap nat StripeClientWrapper)
  (ptr : nat) : bool :=
  match hp !! ptr with
  | Some w => negb (Z.gtb (now - lastUsed w)%Z maxIdleTime)
  | None => true
  end.

Definition CleanupIdleClients (now maxIdleTime : Z) (p : StripeClientPool)
  : StripeClientPool :=
  mkPool (filter (fun kv : string * nat => keepClient now maxIdleTime (heap p) kv.2 = true)
                 (clients p))
         (heap p) (next_ptr p).

(** [GetMetrics]: [total_clients] and the [circuit_states] counts (closed,
    open, half_open), over the entries in [Range] order; a dangling
    wrapper pointer would be a nil dereference. *)
Record Metrics := mkMetrics {
  total_clients : Z;
  closed : Z;
  open_ : Z;
  half_open : Z
}.

Fixpoint countStates (hp : gmap nat StripeClientWrapper) (l : list (string * nat))
  (m : Metrics) : outcome Metrics :=
  match l with
  | [] => Ok m
  | (_, ptr) :: rest =>
      match hp !! ptr with
      | None => Panic
      | Some w =>
          let m' :=
            match state (circuitBreaker w) with
            | CircuitClosed =>
                mkMetrics (total_clients m + 1)%Z (closed m + 1)%Z (open_ m) (half_open m)
            | CircuitOpen =>
                mkMetrics (total_clients m + 1)%Z (closed m) (open_ m + 1)%Z (half_open m)
            | CircuitHalfOpen =>
                mkMetrics (total_clients m + 1)%Z (closed m) (open_ m) (half_open m + 1)%Z
            end in
          countStates hp rest m'
      end
  end.

Definition GetMetrics (p : StripeClientPool) : outcome Metrics :=
  countStates (heap p) (map_to_list (clients p)) (mkMetrics 0%Z 0%Z 0%Z 0%Z).

(** The pool operations of the package, for reachability. *)
Inductive PoolOp :=
| OpGetClient (now : Z) (apiKey mode : string)
| OpCleanup (now maxIdleTime : Z).

Definition apply_pool_op (p : StripeClientPool) (o : PoolOp) : StripeClientPool :=
  match o with
  | OpGetClient now k m => snd (GetClient now p k m)
  | OpCleanup now d => CleanupIdleClients now d p
  end.

Definition run_pool_ops (p : StripeClientPool) (ops : list PoolOp) : StripeClientPool :=
  fold_left apply_pool_op ops p.

End Resilience.

(* ------------------------------------------------------------------ *)
(** ** The rest of [SimpleMetricsDB] ([widget-revenue_test.go]) *)

Module StoreMore.
Import Store.
Open Scope Z_scope.

Fixpoint lastCustomerSnapshot (h : list CustomerSnapshot) : option CustomerSnapshot :=
  match h with
  | [] => None
  | [s] => Some s
  | _ :: rest => lastCustomerSnapshot rest
  end.

(** [SimpleMetricsDB.GetLatestCustomers]. *)
Definition GetLatestCustomers (db : SimpleMetricsDB) (mode : string)
  : option CustomerSnapshot :=
  match customerHistory db !! mode with
  | None => None
  | Some history => lastCustomerSnapshot history
  end.

(** The map [GetDatabaseStats] returns: its keys
    [revenue_metrics_count], [customer_metrics_count] and [modes]. *)
Record DatabaseStats := mkDatabaseStats {
  revenue_metrics_count : nat;
  customer_metrics_count : nat;
  modes : nat
}.

(** The [for _, history := range ...] sums of [len(history)]. *)
Definition totalLength {A : Type} (m : gmap string (list A)) : nat :=
  map_fold (fun _ (history : list A) (total : nat) => (total + length history)%nat) 0%nat m.

Definition GetDatabaseStats (db : SimpleMetricsDB) : DatabaseStats :=
  mkDatabaseStats (totalLength (revenueHistory db)) (totalLength (customerHistory db))
                  (size (revenueHistory db)).

(** [CleanupOldMetrics] at time [now] ([time.Now()]): every history keeps
    the snapshots whose timestamp is [After] the cutoff
    [now - retentionPeriod], in order. *)
Definition CleanupOldMetrics (now retentionPeriod : Z) (db : SimpleMetricsDB)
  : SimpleMetricsDB :=
  let cutoff := now - retentionPeriod in
  mkDB ((fun history => List.filter (fun s => Z.ltb cutoff (rsTimestamp s)) history)
          <$> revenueHistory db)
       ((fun history => List.filter (fun s => Z.ltb cutoff (csTimestamp s)) history)
          <$> customerHistory db)
       (maxHistory db).

End StoreMore.

(* ------------------------------------------------------------------ *)
(** ** What the default webhook handlers write to the metrics store *)

Module WebhookStore.
Import Revenue Store Webhook.
Open Scope Q_scope.

(** [calculateSubscriptionMRR]: as the inner loop of [calculateMRR], but an
    unknown interval leaves [monthlyAmount] at its zero value, which is
    still multiplied by the quantity and added. *)
Fixpoint subscriptionItemsMRR (totalMRR : Q) (items : list SubscriptionItem) : outcome Q :=
  match items with
  | [] => Ok totalMRR
  | item :: rest =>
      match ItemPrice item with
      | None => subscriptionItemsMRR totalMRR rest
      | Some p =>
          let amount := inject_Z (UnitAmount p) / 100 in
          match Recurring p with
          | None => Panic  (* item.Price.Recurring.Interval on a nil pointer *)
          | Some r =>
              let m := match monthlyAmount amount (Interval r) (IntervalCount r) with
                       | Some m => m
                       | None => 0
                       end in
              subscriptionItemsMRR (totalMRR + m * inject_Z (Quantity item)) rest
          end
      end
  end.

Definition calculateSubscriptionMRR (sub : Subscription) : outcome Q :=
  subscriptionItemsMRR 0 (Items sub).

(** [mode := "live"; if !event.Livemode { mode = "test" }]. *)
Definition eventMode (livemode : bool) : string := if livemode then "live" else "test".



(** [handleCustomerCreated] and [handleCustomerDeleted]; [decodes] says
    whether [Data.Raw] unmarshals into a [stripe.Customer]. *)
Definition handleCustomerCreatedDB (now : Z) (ev : Event) (decodes : bool)
  (db : SimpleMetricsDB) : option string * SimpleMetricsDB :=
  if decodes then
    (None, SaveCustomerSnapshot db
             (mkCustomerSnapshot now 0 1 0 0 0 (eventMode (evLivemode ev))))
  else (Some "failed to unmarshal customer", db).

Definition handleCustomerDeletedDB (now : Z) (ev : Event) (decodes : bool)
  (db : SimpleMetricsDB) : option string * SimpleMetricsDB :=
  if decodes then
    (None, SaveCustomerSnapshot db
             (mkCustomerSnapshot now 0 0 1 0 0 (eventMode (evLivemode ev))))
  else (Some "failed to unmarshal customer", db).


End WebhookStore.

(* ================================================================== *)
(** * Properties *)

(* ------------------------------------------------------------------ *)
(** ** Revenue normalisation *)

Module RevenueFacts.
Import Revenue.
Open Scope Q_scope.

Example monthlyAmount_week :
  monthlyAmount 100 "week" 2 = Some (100 * (433 # 100) / 2).
Proof. reflexivity. Qed.

Example calculateMRR_small :
  calculateMRR (mkIter [mkSubscription
                         [mkItem (Some (mkPrice 1200 (Some (mkRecurring "year" 1)))) 1;
                          mkItem (Some (mkPrice 500 (Some (mkRecurring "fortnight" 1)))) 3;
                          mkItem None 7]] None)
  = Ok (0 + inject_Z 1200 / 100 / (12 * inject_Z 1) * inject_Z 1).
Proof. reflexivity. Qed.

Lemma inject_Z_pos_neq0 (z : Z) : (1 <= z)%Z -> ~ inject_Z z == 0.
Proof. intros Hz H. unfold Qeq in H. simpl in H. lia. Qed.

(** The [switch] of [calculateMRR] and the spec's K agree interval by
    interval. *)
Lemma monthlyAmount_K (amount q : Q) (i : string) (ic : Z) :
  ~ inject_Z ic == 0 ->
  (monthlyAmount amount i ic = None /\ K_spec i = None) \/
  exists m k, monthlyAmount amount i ic = Some m /\ K_spec i = Some k /\
              m * q == amount * q * k / inject_Z ic.
Proof.
  intros Hic. unfold monthlyAmount.
  destruct (String.eqb_spec i "month") as [->|H1].
  { right. do 2 eexists. split; [reflexivity|split; [reflexivity|]]. field. exact Hic. }
  destruct (String.eqb_spec i "year") as [->|H2].
  { right. do 2 eexists. split; [reflexivity|split; [reflexivity|]]. field. exact Hic. }
  destruct (String.eqb_spec i "week") as [->|H3].
  { right. do 2 eexists. split; [reflexivity|split; [reflexivity|]]. field. exact Hic. }
  destruct (String.eqb_spec i "day") as [->|H4].
  { right. do 2 eexists. split; [reflexivity|split; [reflexivity|]]. field. exact Hic. }
  left. split; [reflexivity|]. unfold K_spec.
  apply String.eqb_neq in H1, H2, H3, H4.
  rewrite H1, H2, H3, H4. reflexivity.
Qed.

Lemma sumItems_spec (items : list SubscriptionItem) (acc : Q) :
  Forall item_ok items ->
  exists v, sumItems acc items = Ok v /\ v == acc + mrr_spec items.
Proof.
  revert acc. induction items as [|item rest IH]; intros acc Hok.
  - exists acc. split; [reflexivity|]. simpl. ring.
  - inversion Hok as [|? ? Hitem Hrest]; subst.
    destruct Hitem as (p & r & Hp & Hr & Hic & _).
    pose proof (inject_Z_pos_neq0 _ Hic) as Hic'.
    simpl. rewrite Hp, Hr.
    destruct (monthlyAmount_K (inject_Z (UnitAmount p) / 100)
                (inject_Z (Quantity item)) (Interval r) (IntervalCount r) Hic')
      as [[Hm Hk] | (m & k & Hm & Hk & Heq)].
    + rewrite Hm, Hk. destruct (IH acc Hrest) as (v & Hv & Hveq).
      exists v. split; [exact Hv|]. rewrite Hveq. ring.
    + rewrite Hm, Hk.
      destruct (IH (acc + m * inject_Z (Quantity item)) Hrest) as (v & Hv & Hveq).
      exists v. split; [exact Hv|]. rewrite Hveq, Heq. ring.
Qed.

Lemma mrr_spec_app (l1 l2 : list SubscriptionItem) :
  mrr_spec (l1 ++ l2) == mrr_spec l1 + mrr_spec l2.
Proof.
  induction l1 as [|x l1 IH]; simpl.
  - ring.
  - rewrite IH. ring.
Qed.

Lemma sumSubscriptions_spec (subs : list Subscription) (acc : Q) :
  Forall item_ok (all_items subs) ->
  exists v, sumSubscriptions acc subs = Ok v /\ v == acc + mrr_spec (all_items subs).
Proof.
  revert acc. induction subs as [|s rest IH]; intros acc Hok.
  - exists acc. split; [reflexivity|]. simpl. ring.
  - unfold all_items in Hok. simpl in Hok. apply Forall_app in Hok as [Hs Hrest].
    destruct (sumItems_spec (Items s) acc Hs) as (t & Ht & Hteq).
    destruct (IH t Hrest) as (v & Hv & Hveq).
    exists v. simpl. rewrite Ht. split; [exact Hv|].
    unfold all_items. simpl. rewrite mrr_spec_app.
    fold (all_items rest). rewrite Hveq, Hteq. ring.
Qed.


(** C1: for subscription items with a price, a recurring interval,
    intervalCount >= 1 and quantity >= 1, [calculateMRR] computes the sum of
    (amount / 100) * quantity * K(interval) / intervalCount (unknown
    intervals contributing nothing), the widget stores that MRR and
    ARR = 12 * MRR; with no items MRR = ARR = 0. *)
Theorem calculateMRR_normalises (subs : list Subscription) (w : revenueWidget)
  (Hok : Forall item_ok (all_items subs)) :
  (exists w', updateMRR w (calculateMRR (mkIter subs None)) = Some w' /\
              CurrentMRR w' == mrr_spec (all_items subs) /\
              ARR w' == 12 * mrr_spec (all_items subs)) /\
  (exists w', updateMRR w (calculateMRR (mkIter [] None)) = Some w' /\
              CurrentMRR w' == 0 /\ ARR w' == 0).
Proof.
  split.
  - destruct (sumSubscriptions_spec subs 0 Hok) as (v & Hv & Hveq).
    unfold calculateMRR. simpl. rewrite Hv. simpl.
    eexists. split; [reflexivity|]. simpl. split.
    + rewrite Hveq. ring.
    + rewrite Hveq. ring.
  - eexists. split; [reflexivity|]. simpl. split; reflexivity.
Qed.

Definition example_subs : list Subscription :=
  [mkSubscription [mkItem (Some (mkPrice 2900 (Some (mkRecurring "month" 1)))) 2;
                   mkItem (Some (mkPrice 1000 (Some (mkRecurring "week" 2)))) 1];
   mkSubscription [mkItem (Some (mkPrice 12000 (Some (mkRecurring "year" 1)))) 1;
                   mkItem (Some (mkPrice 300 (Some (mkRecurring "quarter" 1)))) 1]].

Lemma calculateMRR_normalises_witness :
  Forall item_ok (all_items example_subs) /\
  ((exists w', updateMRR (mkRevenueWidget 0 0 0 0 0 0 0)
                 (calculateMRR (mkIter example_subs None)) = Some w' /\
               CurrentMRR w' == mrr_spec (all_items example_subs) /\
               ARR w' == 12 * mrr_spec (all_items example_subs)) /\
   (exists w', updateMRR (mkRevenueWidget 0 0 0 0 0 0 0)
                 (calculateMRR (mkIter [] None)) = Some w' /\
               CurrentMRR w' == 0 /\ ARR w' == 0)).
Proof.
  assert (H : Forall item_ok (all_items example_subs)).
  { repeat constructor; do 2 eexists; repeat split; simpl; try reflexivity; lia. }
  split; [exact H|].
  apply (calculateMRR_normalises example_subs (mkRevenueWidget 0 0 0 0 0 0 0) H).
Defined.

End RevenueFacts.

(* ------------------------------------------------------------------ *)
(** ** Circuit breaker *)

Module BreakerFacts.
Import Breaker.
Open Scope Z_scope.

(** Five failures open a fresh breaker; 61 s later the breaker is
    Half-Open with its failure count reset. *)
Definition opened_at_zero : CircuitBreaker :=
  RecordFailure 0 (RecordFailure 0 (RecordFailure 0 (RecordFailure 0
    (RecordFailure 0 newBreaker)))).

Example opened_at_zero_is_open : state opened_at_zero = CircuitOpen.
Proof. reflexivity. Qed.

Definition half_open_at_61s : CircuitBreaker :=
  snd (CanExecute (61 * second) opened_at_zero).

Example half_open_at_61s_state :
  CanExecute (61 * second) opened_at_zero = (true, half_open_at_61s) /\
  state half_open_at_61s = CircuitHalfOpen /\ failures half_open_at_61s = 0.
Proof. repeat split; reflexivity. Qed.

(** C2: one failure recorded while Half-Open does not reopen the breaker
    [GetClient] builds: after five failures, the reset timeout and the trial
    failure, the breaker is still Half-Open, and [CanExecute] keeps granting
    calls; a recorded success does close it. *)
Theorem RecordFailure_half_open_stays :
  let cb := RecordFailure (61 * second) half_open_at_61s in
  state half_open_at_61s = CircuitHalfOpen /\
  state cb = CircuitHalfOpen /\ failures cb = 1 /\
  fst (CanExecute (62 * second) cb) = true /\
  state (RecordSuccess half_open_at_61s) = CircuitClosed.
Proof. repeat split; reflexivity. Qed.

(** A Half-Open breaker whose count stays below the threshold is not
    opened by a failure. *)
Lemma RecordFailure_half_open_below (now : Z) (cb : CircuitBreaker) :
  state cb = CircuitHalfOpen -> 0 <= failures cb ->
  failures cb + 1 < maxFailures cb -> maxFailures cb <= 2 ^ 32 ->
  state (RecordFailure now cb) = CircuitHalfOpen.
Proof.
  intros Hs H0 Hlt Hmax. unfold RecordFailure, uint32_wrap. simpl.
  rewrite Z.mod_small by lia.
  destruct (Z.geb_spec (failures cb + 1) (maxFailures cb)); [lia|]. exact Hs.
Qed.

(** C3 (counterexample): two successive [CanExecute] queries on the
    Half-Open breaker both grant permission. *)
Lemma CanExecute_half_open_twice :
  let (ok1, cb1) := CanExecute (61 * second) opened_at_zero in
  let (ok2, cb2) := CanExecute (61 * second) cb1 in
  ok1 = true /\ state cb1 = CircuitHalfOpen /\ ok2 = true /\
  state cb2 = CircuitHalfOpen.
Proof. repeat split; reflexivity. Qed.

(** C3 (amended): while Half-Open, [CanExecute] grants every query and
    leaves the breaker unchanged, so any number of callers may attempt the
    guarded call until a success or failure is recorded. *)
Theorem CanExecute_half_open_grants (now : Z) (cb : CircuitBreaker) :
  state cb = CircuitHalfOpen ->
  CanExecute now cb = (true, cb) /\
  forall now', CanExecute now' (snd (CanExecute now cb)) = (true, cb).
Proof.
  intros Hs. unfold CanExecute. rewrite Hs. split; [reflexivity|].
  intros now'. simpl. rewrite Hs. reflexivity.
Qed.

Lemma CanExecute_half_open_grants_witness :
  state half_open_at_61s = CircuitHalfOpen /\
  CanExecute (70 * second) half_open_at_61s = (true, half_open_at_61s) /\
  forall now', CanExecute now' (snd (CanExecute (70 * second) half_open_at_61s))
               = (true, half_open_at_61s).
Proof.
  assert (Hs : state half_open_at_61s = CircuitHalfOpen) by reflexivity.
  split; [exact Hs|].
  exact (CanExecute_half_open_grants (70 * second) half_open_at_61s Hs).
Defined.

End BreakerFacts.

(* ------------------------------------------------------------------ *)
(** ** Snapshot store *)

Module StoreFacts.
Import Store.
Open Scope Z_scope.
Open Scope list_scope.

Definition rev_le (a b : RevenueSnapshot) : Prop := rsTimestamp a <= rsTimestamp b.
Definition cust_le (a b : CustomerSnapshot) : Prop := csTimestamp a <= csTimestamp b.
Definition op_le (a b : SaveOp) : Prop := op_time a <= op_time b.

Example appendBounded_evicts :
  appendBounded 3 [1%nat; 2%nat; 3%nat] 4%nat = [2%nat; 3%nat; 4%nat].
Proof. reflexivity. Qed.

Lemma appendBounded_lastn {S : Type} (n : nat) (h : list S) (s : S) :
  appendBounded n h s = lastn n (h ++ [s]).
Proof.
  unfold appendBounded, lastn.
  destruct (Nat.ltb_spec n (length (h ++ [s]))); [reflexivity|].
  replace (length (h ++ [s]) - n)%nat with 0%nat by lia. reflexivity.
Qed.

Lemma lastn_app_lastn {A : Type} (n : nat) (l x : list A) :
  lastn n (lastn n l ++ x) = lastn n (l ++ x).
Proof.
  unfold lastn. rewrite !length_app, length_drop, !drop_app, drop_drop, length_drop.
  f_equal; f_equal; lia.
Qed.

Lemma length_lastn {A : Type} (n : nat) (l : list A) : (length (lastn n l) <= n)%nat.
Proof. unfold lastn. rewrite length_drop. lia. Qed.

Lemma run_ops_snoc (db : SimpleMetricsDB) (ops : list SaveOp) (o : SaveOp) :
  run_ops db (ops ++ [o]) = apply_op (run_ops db ops) o.
Proof. unfold run_ops. rewrite fold_left_app. reflexivity. Qed.

Lemma run_ops_maxHistory (db : SimpleMetricsDB) (ops : list SaveOp) :
  maxHistory (run_ops db ops) = maxHistory db.
Proof.
  induction ops as [|o ops IH] using rev_ind; [reflexivity|].
  rewrite run_ops_snoc. destruct o; exact IH.
Qed.

Lemma revenue_saves_snoc (m : string) (ops : list SaveOp) (o : SaveOp) :
  revenue_saves m (ops ++ [o]) =
  revenue_saves m ops ++
    match o with
    | SaveRevenue s => if String.eqb (rsMode s) m then [s] else []
    | SaveCustomer _ => []
    end.
Proof.
  induction ops as [|o' ops IH]; simpl.
  - destruct o as [s|s]; [destruct (String.eqb (rsMode s) m)|]; reflexivity.
  - destruct o' as [s|s]; [destruct (String.eqb (rsMode s) m)|]; simpl; rewrite IH; reflexivity.
Qed.

Lemma customer_saves_snoc (m : string) (ops : list SaveOp) (o : SaveOp) :
  customer_saves m (ops ++ [o]) =
  customer_saves m ops ++
    match o with
    | SaveCustomer s => if String.eqb (csMode s) m then [s] else []
    | SaveRevenue _ => []
    end.
Proof.
  induction ops as [|o' ops IH]; simpl.
  - destruct o as [s|s]; [|destruct (String.eqb (csMode s) m)]; reflexivity.
  - destruct o' as [s|s]; [|destruct (String.eqb (csMode s) m)]; simpl; rewrite IH; reflexivity.
Qed.

(** The stored history of each key is the last [maxHistory] snapshots
    saved under it. *)
Lemma revenueHistory_run (ops : list SaveOp) (m : string) :
  default [] (revenueHistory (run_ops GetSimpleMetricsDB ops) !! m) =
  lastn 100 (revenue_saves m ops).
Proof.
  induction ops as [|o ops IH] using rev_ind; [reflexivity|].
  rewrite run_ops_snoc, revenue_saves_snoc.
  destruct o as [s|s]; simpl.
  - rewrite run_ops_maxHistory. simpl.
    destruct (String.eqb_spec (rsMode s) m) as [<-|Hne].
    + rewrite lookup_insert_eq. simpl. rewrite IH, appendBounded_lastn.
      apply lastn_app_lastn.
    + rewrite lookup_insert_ne by congruence. rewrite IH, app_nil_r. reflexivity.
  - rewrite IH, app_nil_r. reflexivity.
Qed.

Lemma customerHistory_run (ops : list SaveOp) (m : string) :
  default [] (customerHistory (run_ops GetSimpleMetricsDB ops) !! m) =
  lastn 100 (customer_saves m ops).
Proof.
  induction ops as [|o ops IH] using rev_ind; [reflexivity|].
  rewrite run_ops_snoc, customer_saves_snoc.
  destruct o as [s|s]; simpl.
  - rewrite IH, app_nil_r. reflexivity.
  - rewrite run_ops_maxHistory. simpl.
    destruct (String.eqb_spec (csMode s) m) as [<-|Hne].
    + rewrite lookup_insert_eq. simpl. rewrite IH, appendBounded_lastn.
      apply lastn_app_lastn.
    + rewrite lookup_insert_ne by congruence. rewrite IH, app_nil_r. reflexivity.
Qed.

Lemma StronglySorted_drop {A : Type} (R : A -> A -> Prop) (k : nat) (l : list A) :
  StronglySorted R l -> StronglySorted R (drop k l).
Proof.
  revert l. induction k as [|k IH]; intros l H; [exact H|].
  destruct l as [|a l]; [constructor|]. inversion H; subst. apply IH. assumption.
Qed.

Lemma StronglySorted_filter {A : Type} (R : A -> A -> Prop) (f : A -> bool) (l : list A) :
  StronglySorted R l -> StronglySorted R (List.filter f l).
Proof.
  induction l as [|a l IH]; intros H; [constructor|].
  inversion H as [|? ? Hl Hall]; subst. simpl. destruct (f a).
  - constructor; [apply IH; exact Hl|].
    apply List.Forall_forall. intros x Hx. apply List.filter_In in Hx as [Hx _].
    rewrite List.Forall_forall in Hall. apply Hall, Hx.
  - apply IH; exact Hl.
Qed.

Lemma revenue_saves_bounded (m : string) (t : Z) (ops : list SaveOp) :
  Forall (fun o => t <= op_time o) ops ->
  Forall (fun s => t <= rsTimestamp s) (revenue_saves m ops).
Proof.
  induction ops as [|o ops IH]; intros H; [constructor|].
  inversion H; subst. destruct o as [s|s]; simpl; auto.
  destruct (String.eqb (rsMode s) m); auto.
Qed.

Lemma customer_saves_bounded (m : string) (t : Z) (ops : list SaveOp) :
  Forall (fun o => t <= op_time o) ops ->
  Forall (fun s => t <= csTimestamp s) (customer_saves m ops).
Proof.
  induction ops as [|o ops IH]; intros H; [constructor|].
  inversion H; subst. destruct o as [s|s]; simpl; auto.
  destruct (String.eqb (csMode s) m); auto.
Qed.

Lemma revenue_saves_sorted (m : string) (ops : list SaveOp) :
  StronglySorted op_le ops -> StronglySorted rev_le (revenue_saves m ops).
Proof.
  induction ops as [|o ops IH]; intros H; [constructor|].
  inversion H as [|? ? Hs Hall]; subst.
  destruct o as [s|s]; simpl; auto.
  destruct (String.eqb (rsMode s) m); auto.
  constructor; auto. apply (revenue_saves_bounded m (rsTimestamp s)). exact Hall.
Qed.

Lemma customer_saves_sorted (m : string) (ops : list SaveOp) :
  StronglySorted op_le ops -> StronglySorted cust_le (customer_saves m ops).
Proof.
  induction ops as [|o ops IH]; intros H; [constructor|].
  inversion H as [|? ? Hs Hall]; subst.
  destruct o as [s|s]; simpl; auto.
  destruct (String.eqb (csMode s) m); auto.
  constructor; auto. apply (customer_saves_bounded m (csTimestamp s)). exact Hall.
Qed.

Lemma GetRevenueHistory_stored (db : SimpleMetricsDB) (m : string) (t0 t1 : Z) :
  GetRevenueHistory db m t0 t1 =
  List.filter (fun s => inRange t0 t1 (rsTimestamp s)) (default [] (revenueHistory db !! m)).
Proof. unfold GetRevenueHistory. destruct (revenueHistory db !! m); reflexivity. Qed.

Lemma GetCustomerHistory_stored (db : SimpleMetricsDB) (m : string) (t0 t1 : Z) :
  GetCustomerHistory db m t0 t1 =
  List.filter (fun s => inRange t0 t1 (csTimestamp s)) (default [] (customerHistory db !! m)).
Proof. unfold GetCustomerHistory. destruct (customerHistory db !! m); reflexivity. Qed.

Lemma length_filter_le {A : Type} (f : A -> bool) (l : list A) :
  (length (List.filter f l) <= length l)%nat.
Proof. induction l as [|a l IH]; simpl; [lia|]. destruct (f a); simpl; lia. Qed.

Lemma inRange_closed (t0 t1 t : Z) : inRange t0 t1 t = (Z.leb t0 t && Z.leb t t1)%bool.
Proof.
  unfold inRange.
  destruct (Z.eqb_spec t t0), (Z.ltb_spec t0 t), (Z.eqb_spec t t1), (Z.ltb_spec t t1),
           (Z.leb_spec t0 t), (Z.leb_spec t t1); simpl; try reflexivity; lia.
Qed.

(** C6: after a sequence of saves with non-decreasing timestamps, starting
    from the store [GetSimpleMetricsDB] builds, every (kind, mode) history
    is the last 100 snapshots saved under that key (older ones evicted),
    it never holds more than 100 records, and reading it back over any time
    range yields records in non-decreasing timestamp order. *)
Theorem store_history_sorted_bounded (ops : list SaveOp) :
  Sorted op_le ops ->
  forall (mode : string) (t0 t1 : Z),
    let db := run_ops GetSimpleMetricsDB ops in
    (default [] (revenueHistory db !! mode) = lastn 100 (revenue_saves mode ops) /\
     (length (default [] (revenueHistory db !! mode)) <= 100)%nat /\
     (length (GetRevenueHistory db mode t0 t1) <= 100)%nat /\
     Sorted rev_le (GetRevenueHistory db mode t0 t1)) /\
    (default [] (customerHistory db !! mode) = lastn 100 (customer_saves mode ops) /\
     (length (default [] (customerHistory db !! mode)) <= 100)%nat /\
     (length (GetCustomerHistory db mode t0 t1) <= 100)%nat /\
     Sorted cust_le (GetCustomerHistory db mode t0 t1)).
Proof.
  intros Hsorted mode t0 t1 db.
  assert (Hss : StronglySorted op_le ops).
  { apply Sorted_StronglySorted; [|exact Hsorted].
    intros a b c Hab Hbc. unfold op_le in *. lia. }
  split.
  - pose proof (revenueHistory_run ops mode) as Hh.
    pose proof (length_lastn 100 (revenue_saves mode ops)) as Hlen.
    pose proof (length_filter_le (fun s => inRange t0 t1 (rsTimestamp s))
                  (default [] (revenueHistory db !! mode))) as Hf.
    unfold db in *. rewrite GetRevenueHistory_stored, Hh in *.
    split; [reflexivity|]. split; [exact Hlen|]. split; [lia|].
    apply StronglySorted_Sorted, StronglySorted_filter. unfold lastn.
    apply StronglySorted_drop, revenue_saves_sorted, Hss.
  - pose proof (customerHistory_run ops mode) as Hh.
    pose proof (length_lastn 100 (customer_saves mode ops)) as Hlen.
    pose proof (length_filter_le (fun s => inRange t0 t1 (csTimestamp s))
                  (default [] (customerHistory db !! mode))) as Hf.
    unfold db in *. rewrite GetCustomerHistory_stored, Hh in *.
    split; [reflexivity|]. split; [exact Hlen|]. split; [lia|].
    apply StronglySorted_Sorted, StronglySorted_filter. unfold lastn.
    apply StronglySorted_drop, customer_saves_sorted, Hss.
Qed.

Definition rev_at (t : Z) (mode : string) : RevenueSnapshot :=
  mkRevenueSnapshot t 100 1200 0 0 0 mode.
Definition cust_at (t : Z) (mode : string) : CustomerSnapshot :=
  mkCustomerSnapshot t 10 1 0 0 9 mode.

(** 103 saves, alternating kinds and modes, at times 0, 1, ..., 102. *)
Definition example_ops : list SaveOp :=
  map (fun n : nat =>
         let t := Z.of_nat n in
         if Nat.even n then SaveRevenue (rev_at t "live")
         else if Nat.eqb (n mod 3) 1 then SaveCustomer (cust_at t "test")
         else SaveRevenue (rev_at t "test"))
      (seq 0 103).

Example example_ops_evicts :
  length (default [] (revenueHistory (run_ops GetSimpleMetricsDB
                                       (example_ops ++ map (fun n => SaveRevenue (rev_at (Z.of_nat (103 + n)) "live")) (seq 0 60)))
                      !! "live")) = 100%nat.
Proof. vm_compute. reflexivity. Qed.

Lemma store_history_sorted_bounded_witness :
  Sorted op_le example_ops /\
  ((default [] (revenueHistory (run_ops GetSimpleMetricsDB example_ops) !! "live")
    = lastn 100 (revenue_saves "live" example_ops) /\
    (length (default [] (revenueHistory (run_ops GetSimpleMetricsDB example_ops) !! "live")) <= 100)%nat /\
    (length (GetRevenueHistory (run_ops GetSimpleMetricsDB example_ops) "live" 0 50) <= 100)%nat /\
    Sorted rev_le (GetRevenueHistory (run_ops GetSimpleMetricsDB example_ops) "live" 0 50)) /\
   (default [] (customerHistory (run_ops GetSimpleMetricsDB example_ops) !! "live")
    = lastn 100 (customer_saves "live" example_ops) /\
    (length (default [] (customerHistory (run_ops GetSimpleMetricsDB example_ops) !! "live")) <= 100)%nat /\
    (length (GetCustomerHistory (run_ops GetSimpleMetricsDB example_ops) "live" 0 50) <= 100)%nat /\
    Sorted cust_le (GetCustomerHistory (run_ops GetSimpleMetricsDB example_ops) "live" 0 50))).
Proof.
  assert (H : Sorted op_le example_ops).
  { unfold example_ops. simpl.
    repeat (constructor; unfold op_le; simpl; try lia). }
  split; [exact H|].
  exact (store_history_sorted_bounded example_ops H "live" 0 50).
Defined.

(** C7 (counterexample): a revenue snapshot stamped exactly at the end
    bound is returned by the range query. *)
Lemma GetRevenueHistory_includes_end :
  GetRevenueHistory (SaveRevenueSnapshot GetSimpleMetricsDB (rev_at 5 "live")) "live" 0 5
  = [rev_at 5 "live"].
Proof. reflexivity. Qed.

(** C7 (amended): the range query returns, in stored order, exactly the
    records of the key whose timestamp t satisfies t0 <= t <= t1 (a closed
    interval, both ends included); a key never saved yields no records. *)
Theorem history_query_closed_range (db : SimpleMetricsDB) (mode : string) (t0 t1 : Z) :
  GetRevenueHistory db mode t0 t1 =
    List.filter (fun s => Z.leb t0 (rsTimestamp s) && Z.leb (rsTimestamp s) t1)%bool
                (default [] (revenueHistory db !! mode)) /\
  GetCustomerHistory db mode t0 t1 =
    List.filter (fun s => Z.leb t0 (csTimestamp s) && Z.leb (csTimestamp s) t1)%bool
                (default [] (customerHistory db !! mode)).
Proof.
  rewrite GetRevenueHistory_stored, GetCustomerHistory_stored. split.
  - apply List.filter_ext. intros s. apply inRange_closed.
  - apply List.filter_ext. intros s. apply inRange_closed.
Qed.

End StoreFacts.

(* ------------------------------------------------------------------ *)
(** ** Stripe client pool *)

Module PoolFacts.
Import Breaker Pool.
Open Scope Z_scope.

Example GetClient_short_key : fst (GetClient 0 GetStripeClientPool "sk_test_1" "test") = Panic.
Proof. reflexivity. Qed.

Lemma nonempty_of_length (k : string) : (12 <= String.length k)%nat -> String.eqb k "" = false.
Proof. intros H. destruct k; [simpl in H; lia|reflexivity]. Qed.

Lemma slice_prefix_ok (k : string) :
  (12 <= String.length k)%nat -> slice_prefix k 12 = Ok (String.substring 0 12 k).
Proof.
  intros H. unfold slice_prefix. destruct (Nat.ltb_spec (String.length k) 12); [lia|reflexivity].
Qed.

Lemma GetClient_new (now : Z) (p : StripeClientPool) (k m : string) :
  (12 <= String.length k)%nat -> clients p !! cacheKeyOf k m = None ->
  GetClient now p k m =
  (Ok (next_ptr p),
   mkPool (<[cacheKeyOf k m := next_ptr p]> (clients p))
          (<[next_ptr p := mkWrapper k k m newBreaker (mkRateLimiter 100 100 10 now) now]>
             (heap p))
          (S (next_ptr p))).
Proof.
  intros Hlen Hnone. unfold GetClient.
  rewrite nonempty_of_length, slice_prefix_ok by exact Hlen.
  unfold cacheKeyOf in Hnone. rewrite Hnone. reflexivity.
Qed.

Lemma GetClient_cached (now : Z) (p : StripeClientPool) (k m : string) (ptr : nat)
  (w : StripeClientWrapper) :
  (12 <= String.length k)%nat -> clients p !! cacheKeyOf k m = Some ptr ->
  heap p !! ptr = Some w ->
  GetClient now p k m =
  (Ok ptr, mkPool (clients p)
                  (<[ptr := mkWrapper (clientKey w) (apiKey w) (mode w)
                                      (circuitBreaker w) (rateLimiter w) now]> (heap p))
                  (next_ptr p)).
Proof.
  intros Hlen Hsome Hw. unfold GetClient.
  rewrite nonempty_of_length, slice_prefix_ok by exact Hlen.
  unfold cacheKeyOf in Hsome. rewrite Hsome, Hw. reflexivity.
Qed.

(** C9: [GetClient] panics on every non-empty key shorter than 12
    characters (the slice [apiKey[:12]]); and two distinct keys of length
    at least 12 sharing their first 12 characters and a mode share one
    cache entry: the second call returns the wrapper the first call created,
    whose client carries the first caller's key. *)
Theorem GetClient_prefix_cache (now1 now2 : Z) (p : StripeClientPool) (k1 k2 m : string)
  (Hne : k1 <> k2) (H1 : (12 <= String.length k1)%nat) (H2 : (12 <= String.length k2)%nat)
  (Hpre : String.substring 0 12 k1 = String.substring 0 12 k2)
  (Hfresh : clients p !! cacheKeyOf k1 m = None) :
  (forall (now : Z) (q : StripeClientPool) (k mo : string),
     k <> "" -> (String.length k < 12)%nat -> fst (GetClient now q k mo) = Panic) /\
  exists ptr w,
    fst (GetClient now1 p k1 m) = Ok ptr /\
    fst (GetClient now2 (snd (GetClient now1 p k1 m)) k2 m) = Ok ptr /\
    heap (snd (GetClient now2 (snd (GetClient now1 p k1 m)) k2 m)) !! ptr = Some w /\
    apiKey w = k1 /\ clientKey w = k1 /\ clientKey w <> k2.
Proof.
  split.
  - intros now q k mo Hk Hlt. unfold GetClient.
    destruct (String.eqb_spec k ""); [contradiction|].
    unfold slice_prefix. destruct (Nat.ltb_spec (String.length k) 12); [reflexivity|lia].
  - rewrite (GetClient_new now1 p k1 m H1 Hfresh). simpl.
    assert (Hkey : cacheKeyOf k2 m = cacheKeyOf k1 m).
    { unfold cacheKeyOf. rewrite Hpre. reflexivity. }
    rewrite (GetClient_cached now2 _ k2 m (next_ptr p)
               (mkWrapper k1 k1 m newBreaker (mkRateLimiter 100 100 10 now1) now1) H2);
      simpl.
    + eexists _, _. split; [reflexivity|]. split; [reflexivity|].
      split; [apply lookup_insert_eq|]. simpl. auto.
    + rewrite Hkey. apply lookup_insert_eq.
    + apply lookup_insert_eq.
Qed.

Lemma GetClient_prefix_cache_witness :
  exists ptr w,
    fst (GetClient 0 GetStripeClientPool "sk_test_ABCD1111" "test") = Ok ptr /\
    fst (GetClient 5 (snd (GetClient 0 GetStripeClientPool "sk_test_ABCD1111" "test"))
                   "sk_test_ABCD2222" "test") = Ok ptr /\
    heap (snd (GetClient 5 (snd (GetClient 0 GetStripeClientPool "sk_test_ABCD1111" "test"))
                         "sk_test_ABCD2222" "test")) !! ptr = Some w /\
    apiKey w = "sk_test_ABCD1111" /\ clientKey w = "sk_test_ABCD1111" /\
    clientKey w <> "sk_test_ABCD2222".
Proof.
  apply (GetClient_prefix_cache 0 5 GetStripeClientPool "sk_test_ABCD1111"
           "sk_test_ABCD2222" "test"); try (simpl; lia); try reflexivity.
  discriminate.
Defined.

End PoolFacts.

(* ------------------------------------------------------------------ *)
(** ** Webhook intake *)

Module WebhookFacts.
Import Webhook.
Open Scope Z_scope.

Example default_handlers_customer_updated :
  eventHandlers (GetWebhookHandler "whsec" None) !! "customer.updated" = None.
Proof. reflexivity. Qed.

Example default_handlers_customer_created :
  length (default [] (eventHandlers (GetWebhookHandler "whsec" None) !! "customer.created")) = 1%nat.
Proof. reflexivity. Qed.

(** C8: a non-POST request gets 405, a POST whose signature does not verify
    gets 401 and leaves the world (event log, invalidations, goroutines)
    unchanged, and a verified POST gets 200 with the JSON object
    {received: true, event_id: <id>} and schedules the event's processing. *)
Theorem HandleWebhook_replies (ce : ConstructEventFn) (w : World) (r : Request) :
  (rqMethod r <> "POST" ->
   HandleWebhook ce w r = (mkResponse 405 (TextBody "Method not allowed"), w)) /\
  (forall payload, rqMethod r = "POST" -> rqBody r = Some payload ->
   ce payload (rqSignature r) (secret (handler w)) = None ->
   HandleWebhook ce w r = (mkResponse 401 (TextBody "Invalid signature"), w)) /\
  (forall payload ev, rqMethod r = "POST" -> rqBody r = Some payload ->
   ce payload (rqSignature r) (secret (handler w)) = Some ev ->
   fst (HandleWebhook ce w r) =
     mkResponse 200 (JSONBody [("event_id", JString (evID ev)); ("received", JBool true)]) /\
   handler (snd (HandleWebhook ce w r)) = handler w /\
   invalidations (snd (HandleWebhook ce w r)) = invalidations w /\
   pending (snd (HandleWebhook ce w r)) = (pending w ++ [ev])%list).
Proof.
  unfold HandleWebhook. split; [|split].
  - intros Hm. destruct (String.eqb_spec (rqMethod r) "POST"); [contradiction|reflexivity].
  - intros payload Hm Hb Hce. rewrite Hm. simpl. rewrite Hb, Hce. reflexivity.
  - intros payload ev Hm Hb Hce. rewrite Hm. simpl. rewrite Hb, Hce. simpl. auto.
Qed.

Definition demo_event : Event := mkEvent "evt_1" "customer.created" false true.

(** A stand-in for the signature check: only the header "ok" verifies. *)
Definition demo_construct : ConstructEventFn :=
  fun payload sig _ => if String.eqb sig "ok" then Some demo_event else None.

Definition demo_world : World := mkWorld (GetWebhookHandler "whsec" None) [] [].

Lemma HandleWebhook_replies_witness :
  HandleWebhook demo_construct demo_world (mkRequest "GET" None "")
    = (mkResponse 405 (TextBody "Method not allowed"), demo_world) /\
  HandleWebhook demo_construct demo_world (mkRequest "POST" (Some "{}") "bad")
    = (mkResponse 401 (TextBody "Invalid signature"), demo_world) /\
  fst (HandleWebhook demo_construct demo_world (mkRequest "POST" (Some "{}") "ok")) =
    mkResponse 200 (JSONBody [("event_id", JString "evt_1"); ("received", JBool true)]).
Proof.
  split; [|split].
  - apply (HandleWebhook_replies demo_construct demo_world (mkRequest "GET" None "")).
    discriminate.
  - apply (proj1 (proj2 (HandleWebhook_replies demo_construct demo_world
                           (mkRequest "POST" (Some "{}") "bad"))) "{}");
      reflexivity.
  - apply (proj2 (proj2 (HandleWebhook_replies demo_construct demo_world
                           (mkRequest "POST" (Some "{}") "ok"))) "{}" demo_event);
      reflexivity.
Defined.

Lemma processEvent_handlers (now : Z) (ev : Event) (w : World) :
  eventHandlers (handler (processEvent now ev w)) = eventHandlers (handler w).
Proof.
  unfold processEvent. destruct (eventHandlers (handler w) !! evType ev) as [[|h hs]|];
    reflexivity.
Qed.

(** Every [InvalidateCache] call [processEvent] makes is tagged with the
    type of an event that has handlers. *)
Lemma processEvent_calls (now : Z) (ev : Event) (w : World) (t x : string) :
  In (t, x) (invalidations (processEvent now ev w)) ->
  In (t, x) (invalidations w) \/
  (t = evType ev /\ exists h hs, eventHandlers (handler w) !! evType ev = Some (h :: hs)).
Proof.
  unfold processEvent. destruct (eventHandlers (handler w) !! evType ev) as [[|h hs]|] eqn:E;
    simpl; auto.
  intros Hin. apply in_app_or in Hin as [Hin|Hin]; [auto|].
  right. destruct (cacheInvalidator (handler w)) as [inv|]; [|contradiction].
  unfold invalidateCachesForEvent in Hin.
  destruct (invalidationTarget (evType ev)); simpl in Hin; [|contradiction].
  destruct Hin as [Heq|[]]. inversion Heq. eauto.
Qed.

Lemma runEvents_no_calls_for (now : Z) (t0 : string) (evs : list Event) (w : World) :
  eventHandlers (handler w) !! t0 = None ->
  (forall x, ~ In (t0, x) (invalidations w)) ->
  forall x, ~ In (t0, x) (invalidations (runEvents now evs w)).
Proof.
  revert w. induction evs as [|ev evs IH]; intros w Hnone Hnot; simpl; [exact Hnot|].
  apply IH.
  - rewrite processEvent_handlers. exact Hnone.
  - intros x Hin. apply processEvent_calls in Hin as [Hin|(-> & h & hs & E)].
    + exact (Hnot x Hin).
    + congruence.
Qed.

(** C10: processing an event whose type has no registered handler returns
    before handling, invalidation and logging (the world is unchanged); with
    the handlers [GetWebhookHandler] registers, "customer.updated" has none,
    although [invalidateCachesForEvent] maps it to the customers cache, so
    no sequence of processed events ever invalidates that cache for it. *)
Theorem processEvent_unhandled_noop (now : Z) (ev : Event) (w : World)
  (Hnone : match eventHandlers (handler w) !! evType ev with
           | None | Some [] => True
           | Some _ => False
           end) :
  processEvent now ev w = w /\
  eventLog (handler (processEvent now ev w)) = eventLog (handler w) /\
  invalidations (processEvent now ev w) = invalidations w /\
  (forall (secret : string) (inv : option CacheInvalidator),
     eventHandlers (GetWebhookHandler secret inv) !! "customer.updated" = None /\
     invalidationTarget "customer.updated" = Some "customers" /\
     forall (now' : Z) (evs : list Event) (x : string),
       ~ In ("customer.updated", x)
           (invalidations (runEvents now' evs (mkWorld (GetWebhookHandler secret inv) [] [])))).
Proof.
  assert (Heq : processEvent now ev w = w).
  { unfold processEvent.
    destruct (eventHandlers (handler w) !! evType ev) as [[|h hs]|]; [reflexivity|contradiction|reflexivity]. }
  split; [exact Heq|]. rewrite Heq. split; [reflexivity|]. split; [reflexivity|].
  intros s inv. split; [reflexivity|]. split; [reflexivity|].
  intros now' evs. apply runEvents_no_calls_for; [reflexivity|].
  intros x []. 
Qed.

Definition updated_event : Event := mkEvent "evt_2" "customer.updated" true true.

Lemma processEvent_unhandled_noop_witness :
  processEvent 7 updated_event demo_world = demo_world /\
  eventLog (handler (processEvent 7 updated_event demo_world)) = eventLog (handler demo_world) /\
  invalidations (processEvent 7 updated_event demo_world) = invalidations demo_world /\
  (forall (secret : string) (inv : option CacheInvalidator),
     eventHandlers (GetWebhookHandler secret inv) !! "customer.updated" = None /\
     invalidationTarget "customer.updated" = Some "customers" /\
     forall (now' : Z) (evs : list Event) (x : string),
       ~ In ("customer.updated", x)
           (invalidations (runEvents now' evs (mkWorld (GetWebhookHandler secret inv) [] [])))).
Proof.
  apply (processEvent_unhandled_noop 7 updated_event demo_world). exact I.
Defined.

End WebhookFacts.

(* ------------------------------------------------------------------ *)
(** ** Customer lifetime value *)

Module CustomersFacts.
Import Store Customers.
Open Scope Q_scope.

Lemma qlt_spec (a b : Q) : qlt a b = true <-> a < b.
Proof.
  unfold qlt. destruct (Qle_bool b a) eqn:E; simpl.
  - apply Qle_bool_iff in E. split; [discriminate|]. intros H. exfalso.
    apply (Qlt_not_le a b H E).
  - split; [intros _|reflexivity]. apply Qnot_le_lt. intros H.
    apply Qle_bool_iff in H. congruence.
Qed.

Lemma qlt_false (a b : Q) : qlt a b = false <-> b <= a.
Proof.
  unfold qlt. rewrite <- Qle_bool_iff. destruct (Qle_bool b a); simpl; split; congruence.
Qed.

Definition cust_w0 : customersWidget := mkCustomersWidget "live" 10 2 1 0 1 0 0 0.

Example updateLTV_churn : ChurnRate (updateLTV cust_w0 (Some GetSimpleMetricsDB) (Ok 0) None) == 10.
Proof. reflexivity. Qed.

(** C5 (counterexample): with 10 customers, 1 churned (churn 10%) and one
    active customer whose subscriptions bring MRRnow = 0, the code's LTV is
    29 / 0.1 = 290 (the default average revenue), not 0; and when the store
    holds an older revenue snapshot (MRR 500) while MRRnow = 1000 with two
    active customers, the code's LTV is 2500, not 5000. *)
Lemma updateLTV_not_spec :
  let w1 := updateLTV cust_w0 (Some GetSimpleMetricsDB) (Ok 0) None in
  let w2 := mkCustomersWidget "live" 10 2 1 0 2 0 0 0 in
  let db2 := SaveRevenueSnapshot GetSimpleMetricsDB (mkRevenueSnapshot 1 500 6000 0 0 0 "live") in
  let w2' := updateLTV w2 (Some db2) (Ok 1000) None in
  LTV w1 == 290 /\ ~ LTV w1 == ltv_spec 0 (ActiveCustomers cust_w0) (ChurnRate w1) /\
  LTV w2' == 2500 /\ ~ LTV w2' == ltv_spec 1000 (ActiveCustomers w2) (ChurnRate w2').
Proof.
  repeat split; try reflexivity; intros H; vm_compute in H; discriminate.
Qed.

(** C5 (amended): the churn rate is Churned / Total * 100 when Total > 0
    (otherwise unchanged).  When Active > 0 and ChurnRate > 0, LTV is
    M / Active / (ChurnRate / 100) where M is the MRR of the latest stored
    revenue snapshot of the mode if it is positive, otherwise the freshly
    computed MRR if that succeeds and is positive; failing both, LTV is
    29 / (ChurnRate / 100).  Otherwise LTV is not assigned.  CAC is the parsed
    BUSINESS_CAC when set (else unchanged), and LTV/CAC is LTV / CAC exactly
    when CAC > 0 (else unchanged). *)
Theorem updateLTV_amended (w : customersWidget) (d : SimpleMetricsDB)
  (currentMRR : outcome Q) (cacEnv : option Q) :
  let w' := updateLTV w (Some d) currentMRR cacEnv in
  ((0 < TotalCustomers w)%Z ->
     ChurnRate w' == inject_Z (ChurnedCustomers w) / inject_Z (TotalCustomers w) * 100) /\
  ((TotalCustomers w <= 0)%Z -> ChurnRate w' = ChurnRate w) /\
  (forall snap, (0 < ActiveCustomers w)%Z -> 0 < ChurnRate w' ->
     GetLatestRevenue d (StripeMode w) = Some snap -> 0 < rsMRR snap ->
     LTV w' == ltv_spec (rsMRR snap) (ActiveCustomers w) (ChurnRate w')) /\
  (forall m, (0 < ActiveCustomers w)%Z -> 0 < ChurnRate w' ->
     (forall snap, GetLatestRevenue d (StripeMode w) = Some snap -> rsMRR snap <= 0) ->
     currentMRR = Ok m -> 0 < m ->
     LTV w' == ltv_spec m (ActiveCustomers w) (ChurnRate w')) /\
  ((0 < ActiveCustomers w)%Z -> 0 < ChurnRate w' ->
     (forall snap, GetLatestRevenue d (StripeMode w) = Some snap -> rsMRR snap <= 0) ->
     (forall m, currentMRR = Ok m -> m <= 0) ->
     LTV w' == 29 / (ChurnRate w' / 100)) /\
  (~ ((0 < ActiveCustomers w)%Z /\ 0 < ChurnRate w') -> LTV w' = LTV w) /\
  CAC w' = match cacEnv with Some v => v | None => CAC w end /\
  (0 < CAC w' -> LTVtoCAC w' == LTV w' / CAC w') /\
  (CAC w' <= 0 -> LTVtoCAC w' = LTVtoCAC w).
Proof.
  intros w'.
  assert (Hm : forall c, 0 < c -> qlt 0 (c / 100) = true).
  { intros c Hc. apply qlt_spec. apply Qlt_shift_div_l; [reflexivity|]. exact Hc. }
  assert (HL : LTV w' =
    if (Z.ltb 0 (ActiveCustomers w) && qlt 0 (ChurnRate w'))%bool then
      (if qlt 0 (ChurnRate w' / 100) then
         (match GetLatestRevenue d (StripeMode w) with
          | Some snap => if qlt 0 (rsMRR snap) then rsMRR snap / inject_Z (ActiveCustomers w)
                         else match currentMRR with
                              | Ok m => if qlt 0 m then m / inject_Z (ActiveCustomers w) else 29
                              | _ => 29 end
          | None => match currentMRR with
                    | Ok m => if qlt 0 m then m / inject_Z (ActiveCustomers w) else 29
                    | _ => 29 end
          end) / (ChurnRate w' / 100)
       else LTV w)
    else LTV w) by reflexivity.
  repeat split.
  - intros H. unfold w', updateLTV. simpl. destruct (Z.ltb_spec 0 (TotalCustomers w)); [reflexivity|lia].
  - intros H. unfold w', updateLTV. simpl. destruct (Z.ltb_spec 0 (TotalCustomers w)); [lia|reflexivity].
  - intros snap HA HC Hs Hpos. rewrite HL.
    destruct (Z.ltb_spec 0 (ActiveCustomers w)); [|lia].
    rewrite (proj2 (qlt_spec _ _) HC), Hm by exact HC. simpl. rewrite Hs.
    rewrite (proj2 (qlt_spec _ _) Hpos). reflexivity.
  - intros m HA HC Hs Hcur Hpos. rewrite HL.
    destruct (Z.ltb_spec 0 (ActiveCustomers w)); [|lia].
    rewrite (proj2 (qlt_spec _ _) HC), Hm by exact HC. simpl. rewrite Hcur.
    rewrite (proj2 (qlt_spec _ _) Hpos).
    destruct (GetLatestRevenue d (StripeMode w)) as [snap|] eqn:E; [|reflexivity].
    rewrite (proj2 (qlt_false _ _) (Hs snap eq_refl)). reflexivity.
  - intros HA HC Hs Hcur. rewrite HL.
    destruct (Z.ltb_spec 0 (ActiveCustomers w)); [|lia].
    rewrite (proj2 (qlt_spec _ _) HC), Hm by exact HC. simpl.
    assert (Hf : match currentMRR with
                 | Ok m => if qlt 0 m then m / inject_Z (ActiveCustomers w) else 29
                 | _ => 29 end = 29).
    { destruct currentMRR as [m| |]; try reflexivity.
      rewrite (proj2 (qlt_false _ _) (Hcur m eq_refl)). reflexivity. }
    destruct (GetLatestRevenue d (StripeMode w)) as [snap|] eqn:E.
    + rewrite (proj2 (qlt_false _ _) (Hs snap eq_refl)), Hf. reflexivity.
    + rewrite Hf. reflexivity.
  - intros Hn. rewrite HL.
    destruct (Z.ltb_spec 0 (ActiveCustomers w)); [|reflexivity].
    destruct (qlt 0 (ChurnRate w')) eqn:E; [|reflexivity].
    exfalso. apply Hn. split; [lia|]. apply qlt_spec, E.
  - intros Hc. change (LTVtoCAC w') with (if qlt 0 (CAC w') then LTV w' / CAC w' else LTVtoCAC w).
    rewrite (proj2 (qlt_spec _ _) Hc). reflexivity.
  - intros Hc. change (LTVtoCAC w') with (if qlt 0 (CAC w') then LTV w' / CAC w' else LTVtoCAC w).
    rewrite (proj2 (qlt_false _ _) Hc). reflexivity.
Qed.

Definition cust_w2 : customersWidget := mkCustomersWidget "live" 10 2 1 0 2 0 0 0.
Definition snap500 : RevenueSnapshot := mkRevenueSnapshot 1 500 6000 0 0 0 "live".
Definition db500 : SimpleMetricsDB := SaveRevenueSnapshot GetSimpleMetricsDB snap500.

Lemma updateLTV_amended_witness :
  LTV (updateLTV cust_w2 (Some db500) (Ok 1000) None) ==
    ltv_spec 500 2 (ChurnRate (updateLTV cust_w2 (Some db500) (Ok 1000) None)) /\
  LTV (updateLTV cust_w0 (Some GetSimpleMetricsDB) (Ok 0) None) ==
    29 / (ChurnRate (updateLTV cust_w0 (Some GetSimpleMetricsDB) (Ok 0) None) / 100).
Proof.
  split.
  - apply (proj1 (proj2 (proj2 (updateLTV_amended cust_w2 db500 (Ok 1000) None))) snap500);
      reflexivity.
  - apply (proj1 (proj2 (proj2 (proj2 (proj2 (updateLTV_amended cust_w0 GetSimpleMetricsDB
                                               (Ok 0) None))))));
      try reflexivity.
    + intros snap H. discriminate.
    + intros m H. inversion H. apply Qle_refl.
Defined.

End CustomersFacts.

(* ------------------------------------------------------------------ *)
(** ** Base64 round trip *)

Module Base64Facts.
Import Base64.
Open Scope Z_scope.

Lemma enc6_props (v : Z) :
  0 <= v < 64 ->
  dec6 (enc6 v) = Some v /\ isNewline (enc6 v) = false /\
  Ascii.eqb (enc6 v) padChar = false.
Proof.
  intros Hv. rewrite <- (Z2Nat.id v) by lia.
  assert (Hk : (Z.to_nat v < 64)%nat) by lia.
  generalize dependent (Z.to_nat v). clear v Hv. intros k Hk.
  unfold enc6. rewrite Nat2Z.id.
  do 64 (destruct k as [|k]; [repeat split; reflexivity|]). lia.
Qed.

Lemma byteZ_bounds (a : ascii) : 0 <= byteZ a < 256.
Proof.
  unfold byteZ. pose proof (N_ascii_bounded a). lia.
Qed.

Lemma zbyte_byteZ (a : ascii) : zbyte (byteZ a) = a.
Proof. unfold zbyte, byteZ. rewrite N2Z.id. apply ascii_N_embedding. Qed.

Lemma mod64 (z : Z) : 0 <= z mod 64 < 64.
Proof. apply Z.mod_pos_bound. lia. Qed.

Ltac byte_eq n :=
  match goal with
  | |- zbyte ?e = ?a =>
      replace e with (byteZ a) by (subst n; Z.div_mod_to_equations; lia);
      apply zbyte_byteZ
  end.

Lemma decodeQuanta_encode_lt (k : nat) (l : list ascii) :
  (length l < k)%nat -> decodeQuanta (encode l) = Some l.
Proof.
  revert l. induction k as [|k IH]; intros l Hl; [simpl in Hl; lia|].
  destruct l as [|a [|b [|c rest]]].
  - reflexivity.
  - pose proof (byteZ_bounds a).
    set (n := 65536 * byteZ a).
    destruct (enc6_props _ (mod64 (n / 262144))) as (D0 & _ & _).
    destruct (enc6_props _ (mod64 (n / 4096))) as (D1 & _ & _).
    cbn [encode decodeQuanta]. fold n. rewrite D0, D1. cbn - [zbyte Z.div Z.modulo].
    repeat f_equal; byte_eq n.
  - pose proof (byteZ_bounds a). pose proof (byteZ_bounds b).
    set (n := 65536 * byteZ a + 256 * byteZ b).
    destruct (enc6_props _ (mod64 (n / 262144))) as (D0 & _ & _).
    destruct (enc6_props _ (mod64 (n / 4096))) as (D1 & _ & _).
    destruct (enc6_props _ (mod64 (n / 64))) as (D2 & _ & P2).
    cbn [encode decodeQuanta]. fold n. rewrite D0, D1, P2, D2. cbn - [zbyte Z.div Z.modulo].
    repeat f_equal; byte_eq n.
  - pose proof (byteZ_bounds a). pose proof (byteZ_bounds b). pose proof (byteZ_bounds c).
    set (n := 65536 * byteZ a + 256 * byteZ b + byteZ c).
    destruct (enc6_props _ (mod64 (n / 262144))) as (D0 & _ & _).
    destruct (enc6_props _ (mod64 (n / 4096))) as (D1 & _ & _).
    destruct (enc6_props _ (mod64 (n / 64))) as (D2 & _ & _).
    destruct (enc6_props _ (mod64 n)) as (D3 & _ & P3).
    cbn [encode decodeQuanta]. fold n. rewrite D0, D1, P3, D2, D3.
    rewrite (IH rest) by (simpl in Hl; lia).
    repeat f_equal; byte_eq n.
Qed.

Lemma decodeQuanta_encode (l : list ascii) : decodeQuanta (encode l) = Some l.
Proof. apply (decodeQuanta_encode_lt (S (length l))). lia. Qed.

(** The output of [encode] holds no newline. *)
Lemma encode_no_newline_lt (k : nat) (l : list ascii) :
  (length l < k)%nat -> Forall (fun c => isNewline c = false) (encode l).
Proof.
  revert l. induction k as [|k IH]; intros l Hl; [simpl in Hl; lia|].
  destruct l as [|a [|b [|c rest]]]; cbn [encode];
    repeat constructor;
    try (apply enc6_props, mod64); try reflexivity.
  apply IH. simpl in Hl. lia.
Qed.

Lemma filter_Forall_id {A} (f : A -> bool) (m : list A) :
  Forall (fun c => f c = true) m -> List.filter f m = m.
Proof. induction 1 as [|c m Hc _ IH]; simpl; [reflexivity|]. now rewrite Hc, IH. Qed.

Lemma DecodeString_EncodeToString (l : list ascii) :
  DecodeString (EncodeToString l) = Some l.
Proof.
  unfold DecodeString, EncodeToString.
  rewrite list_ascii_of_string_of_list_ascii.
  rewrite filter_Forall_id.
  - apply decodeQuanta_encode.
  - eapply Forall_impl; [apply (encode_no_newline_lt (S (List.length l))); lia|].
    simpl. intros c ->. reflexivity.
Qed.

Lemma EncodeToString_nonempty (l : list ascii) :
  l <> [] -> EncodeToString l <> "".
Proof.
  intros Hl. unfold EncodeToString.
  destruct l as [|a [|b [|c rest]]]; [congruence| | |]; cbn [encode]; discriminate.
Qed.

End Base64Facts.

(* ------------------------------------------------------------------ *)
(** ** Encryption round trip *)

Module EncryptionFacts.
Import Base64 Encryption Base64Facts.

Lemma substring_0_length (s : string) : String.substring 0 (String.length s) s = s.
Proof. induction s as [|c s IH]; simpl; [reflexivity|]. now rewrite IH. Qed.

Lemma isEncrypted_prefix (s : string) :
  s <> "" -> isEncrypted (encPrefix ++ s) = true.
Proof. intros Hs. destruct s; [congruence|]. reflexivity. Qed.

Lemma strip_prefix (s : string) :
  String.substring 10 (String.length (encPrefix ++ s) - 10) (encPrefix ++ s) = s.
Proof. simpl. rewrite Nat.sub_0_r. apply substring_0_length. Qed.

Lemma prefix_nonempty (s : string) : String.eqb (encPrefix ++ s) "" = false.
Proof. reflexivity. Qed.

(** Decryption with a failing base64 decode, whatever the cipher. *)
Lemma DecryptIfNeeded_prefixed_hello gcm_open e :
  DecryptIfNeeded gcm_open e "encrypted:hello" = Err "failed to decode base64".
Proof. reflexivity. Qed.

(** A stand-in cipher satisfying [open (seal p) = p]. *)
Definition toy_seal (k n p : list ascii) : list ascii := p.
Definition toy_open (k n c : list ascii) : option (list ascii) := Some c.

Definition key32 : list ascii := repeat "k"%char 32.
Definition e0 : EncryptionService := mkService key32 empty.
Definition rand0 : list ascii := repeat "n"%char 12.

(** C4 (counterexample): a non-empty value already carrying the
    "encrypted:" prefix passes through [EncryptIfNeeded] unchanged, and
    [DecryptIfNeeded] then fails to decode its tail, so the round trip does
    not give it back. *)
Lemma EncryptIfNeeded_prefixed_not_roundtrip :
  EncryptIfNeeded toy_seal e0 rand0 "encrypted:hello" = (Ok "encrypted:hello", e0) /\
  DecryptIfNeeded toy_open e0 "encrypted:hello" = Err "failed to decode base64".
Proof. split; reflexivity. Qed.

Section RoundTrip.

Variable seal : list ascii -> list ascii -> list ascii -> list ascii.
Variable open : list ascii -> list ascii -> list ascii -> option (list ascii).

(** Correctness of AES-GCM: opening what was sealed under the same key and
    nonce gives the plaintext back. *)
Hypothesis open_seal :
  forall k n p, length n = nonceSize -> open k n (seal k n p) = Some p.

(** The cache holds, for each plaintext, a non-empty encoding that
    decrypts to it. *)
Definition cache_ok (e : EncryptionService) : Prop :=
  forall p c, cached e !! p = Some c -> c <> "" /\ Decrypt open e c = Ok p.

Lemma Decrypt_sealed (k nonce p : list ascii) (cache : gmap string string) :
  keyOk k = true -> length nonce = nonceSize ->
  Decrypt open (mkService k cache) (EncodeToString (nonce ++ seal k nonce p))
  = Ok (string_of_list_ascii p).
Proof.
  intros Hk Hn. unfold Decrypt.
  assert (Hne : EncodeToString (nonce ++ seal k nonce p) <> "").
  { apply EncodeToString_nonempty. destruct nonce; [discriminate|]. discriminate. }
  destruct (String.eqb_spec (EncodeToString (nonce ++ seal k nonce p)) "");
    [contradiction|].
  rewrite DecodeString_EncodeToString. cbn [key]. rewrite Hk. simpl negb.
  rewrite length_app, Hn.
  destruct (Nat.ltb_spec (nonceSize + length (seal k nonce p)) nonceSize); [lia|].
  rewrite <- Hn, take_app_length, drop_app_length.
  rewrite open_seal by exact Hn. reflexivity.
Qed.

Lemma Decrypt_key e e' c : key e = key e' -> Decrypt open e c = Decrypt open e' c.
Proof. intros H. unfold Decrypt. now rewrite H. Qed.

Lemma Encrypt_ok (e : EncryptionService) (rand : list ascii) (x : string) :
  keyOk (key e) = true -> (nonceSize <= length rand)%nat -> cache_ok e -> x <> "" ->
  exists c e', Encrypt seal e rand x = (Ok c, e') /\ key e' = key e /\
    c <> "" /\ Decrypt open e' c = Ok x /\ cache_ok e'.
Proof.
  intros Hk Hr Hc Hx. unfold Encrypt.
  destruct (String.eqb_spec x ""); [contradiction|].
  destruct (cached e !! x) as [c|] eqn:Hcx.
  - exists c, e. destruct (Hc x c Hcx). auto.
  - rewrite Hk. simpl negb.
    destruct (Nat.ltb_spec (length rand) nonceSize); [lia|].
    set (nonce := firstn nonceSize rand).
    assert (Hn : length nonce = nonceSize) by (apply length_take_le; exact Hr).
    set (enc := EncodeToString (nonce ++ seal (key e) nonce (list_ascii_of_string x))).
    assert (Hdec : forall cache, Decrypt open (mkService (key e) cache) enc = Ok x).
    { intros cache. unfold enc. rewrite Decrypt_sealed by assumption.
      now rewrite string_of_list_ascii_of_string. }
    eexists _, _. split; [reflexivity|]. cbn [key]. split; [reflexivity|].
    split; [|split].
    + apply EncodeToString_nonempty. destruct nonce; [discriminate|]. discriminate.
    + apply Hdec.
    + intros p c Hp. cbn [cached] in Hp.
      destruct (decide (p = x)) as [->|Hpx].
      * rewrite lookup_insert_eq in Hp. injection Hp as <-. split; [|apply Hdec].
        apply EncodeToString_nonempty. destruct nonce; [discriminate|]. discriminate.
      * rewrite lookup_insert_ne in Hp by congruence.
        destruct (Hc p c Hp) as [Hc1 Hc2]. split; [exact Hc1|].
        rewrite <- Hc2. apply Decrypt_key. reflexivity.
Qed.

(** C4 (amended): with a valid AES key, enough random bytes for the nonce
    and a cache of correct encodings, every non-empty value that is not
    already of the form "encrypted:" followed by at least one character is
    encrypted to a value that [DecryptIfNeeded] turns back into it (and the
    cache stays correct); and [EncryptIfNeeded] is idempotent: whatever a
    successful call returns, a second call returns unchanged. *)
Theorem EncryptIfNeeded_roundtrip_idempotent
  (e : EncryptionService) (rand : list ascii)
  (Hk : keyOk (key e) = true) (Hr : (nonceSize <= length rand)%nat) (Hc : cache_ok e) :
  (forall x, x <> "" -> isEncrypted x = false ->
     exists y e', EncryptIfNeeded seal e rand x = (Ok y, e') /\
       DecryptIfNeeded open e' y = Ok x /\ cache_ok e') /\
  (forall x y e' rand', EncryptIfNeeded seal e rand x = (Ok y, e') ->
     EncryptIfNeeded seal e' rand' y = (Ok y, e')).
Proof.
  split.
  - intros x Hx Hne.
    destruct (Encrypt_ok e rand x Hk Hr Hc Hx) as (c & e' & He & Hkey & Hc0 & Hd & Hc').
    exists (encPrefix ++ c), e'. unfold EncryptIfNeeded.
    destruct (String.eqb_spec x ""); [contradiction|]. rewrite Hne, He.
    split; [reflexivity|]. split; [|exact Hc'].
    unfold DecryptIfNeeded. rewrite prefix_nonempty, isEncrypted_prefix by exact Hc0.
    rewrite strip_prefix. exact Hd.
  - intros x y e' rand' H. unfold EncryptIfNeeded in H.
    destruct (String.eqb_spec x "") as [->|Hx].
    + injection H as <- <-. reflexivity.
    + destruct (isEncrypted x) eqn:Hie.
      * injection H as <- <-. unfold EncryptIfNeeded.
        destruct (String.eqb_spec x ""); [contradiction|]. now rewrite Hie.
      * destruct (Encrypt_ok e rand x Hk Hr Hc Hx) as (c & e'' & He & _ & Hc0 & _).
        rewrite He in H. injection H as <- <-. unfold EncryptIfNeeded.
        rewrite prefix_nonempty, isEncrypted_prefix by exact Hc0. reflexivity.
Qed.

End RoundTrip.

Lemma toy_open_seal :
  forall k n p, length n = nonceSize -> toy_open k n (toy_seal k n p) = Some p.
Proof. reflexivity. Qed.

Lemma cache_ok_empty k : cache_ok toy_open (mkService k empty).
Proof. intros p c Hp. cbn [cached] in Hp. rewrite lookup_empty in Hp. discriminate. Qed.

Lemma EncryptIfNeeded_roundtrip_idempotent_witness :
  keyOk (key e0) = true /\ (nonceSize <= length rand0)%nat /\
  DecryptIfNeeded toy_open
    (snd (EncryptIfNeeded toy_seal e0 rand0 "sk_test_123")) 
    (match fst (EncryptIfNeeded toy_seal e0 rand0 "sk_test_123") with
     | Ok y => y | _ => "" end) = Ok "sk_test_123".
Proof.
  split; [reflexivity|]. split; [vm_compute; lia|].
  destruct (proj1 (EncryptIfNeeded_roundtrip_idempotent toy_seal toy_open toy_open_seal
                     e0 rand0 eq_refl ltac:(vm_compute; lia) (cache_ok_empty key32))
              "sk_test_123" ltac:(discriminate) eq_refl) as (y & e' & H1 & H2 & _).
  rewrite H1. exact H2.
Defined.

End EncryptionFacts.

(* ------------------------------------------------------------------ *)
(** ** Key handling helpers *)

Module SecretsFacts.
Import Secrets.

Lemma substring_add (n m k : nat) (s : string) :
  String.substring n (m + k) s =
  String.substring n m s ++ String.substring (n + m) k s.
Proof.
  revert n m. induction s as [|c s IH]; intros n m.
  - destruct n, m, k; reflexivity.
  - destruct n as [|n].
    + destruct m as [|m]; simpl; [reflexivity|]. rewrite (IH 0 m). reflexivity.
    + simpl. apply IH.
Qed.

Lemma substring_full (s : string) : String.substring 0 (String.length s) s = s.
Proof. induction s as [|c s IH]; simpl; [reflexivity|]. now rewrite IH. Qed.


Lemma length_app (a b : string) :
  String.length (a ++ b) = String.length a + String.length b.
Proof. induction a as [|c a IH]; simpl; [reflexivity|]. now rewrite IH. Qed.

Lemma substring_prefix (p r : string) :
  String.substring 0 (String.length p) (p ++ r) = p.
Proof. induction p as [|c p IH]; simpl; [destruct r; reflexivity|]. now rewrite IH. Qed.




(** [ValidateAPIKey] accepts (nil error) exactly the keys of at least 20
    bytes that start with the expected prefix (any key when the prefix is
    empty). *)
Theorem ValidateAPIKey_accepts (key expectedPrefix : string) :
  ValidateAPIKey key expectedPrefix = None <->
  20 <= String.length key /\ exists rest, key = expectedPrefix ++ rest.
Proof.
  unfold ValidateAPIKey. split.
  - destruct (String.eqb_spec key ""); [discriminate|].
    destruct (Nat.ltb_spec (String.length key) 20); [discriminate|].
    destruct (String.eqb_spec expectedPrefix "") as [->|Hp]; simpl negb.
    + intros _. split; [lia|]. exists key. reflexivity.
    + destruct (Nat.ltb_spec (String.length key) (String.length expectedPrefix));
        [discriminate|].
      destruct (String.eqb_spec (String.substring 0 (String.length expectedPrefix) key)
                  expectedPrefix) as [Hs|]; [|discriminate].
      intros _. split; [lia|].
      exists (String.substring (String.length expectedPrefix)
                (String.length key - String.length expectedPrefix) key).
      rewrite <- (substring_full key) at 1.
      replace (String.length key) with
        (String.length expectedPrefix + (String.length key - String.length expectedPrefix))
        at 1 by lia.
      rewrite substring_add, Hs. reflexivity.
  - intros [Hl [rest ->]].
    destruct (String.eqb_spec (expectedPrefix ++ rest) "") as [He|].
    { rewrite He in Hl. simpl in Hl. lia. }
    destruct (Nat.ltb_spec (String.length (expectedPrefix ++ rest)) 20); [lia|].
    destruct (String.eqb_spec expectedPrefix ""); [reflexivity|]. simpl negb.
    rewrite length_app.
    destruct (Nat.ltb_spec (String.length expectedPrefix + String.length rest)
                (String.length expectedPrefix)); [lia|].
    rewrite substring_prefix, String.eqb_refl. reflexivity.
Qed.

Lemma validate_length (key expectedPrefix : string) :
  ValidateAPIKey key expectedPrefix = None -> 20 <= String.length key.
Proof.
  unfold ValidateAPIKey.
  destruct (String.eqb key ""); [discriminate|].
  destruct (Nat.ltb_spec (String.length key) 20); [discriminate|intros _; lia].
Qed.

(** A key that [ValidateAPIKey] accepts never makes [GetClient] fail: it is
    non-empty and long enough for the [apiKey[:12]] cache-key slice. *)
Theorem ValidateAPIKey_GetClient (key expectedPrefix mode : string) (now : Z)
  (p : Pool.StripeClientPool) (H : ValidateAPIKey key expectedPrefix = None) :
  exists ptr p', Pool.GetClient now p key mode = (Ok ptr, p').
Proof.
  apply validate_length in H as Hl.
  unfold Pool.GetClient, Pool.slice_prefix.
  destruct (String.eqb_spec key "") as [->|]; [simpl in Hl; lia|].
  destruct (Nat.ltb_spec (String.length key) 12); [lia|].
  destruct (Pool.clients p !! _); eauto.
Qed.

Lemma ValidateAPIKey_GetClient_witness :
  ValidateAPIKey "sk_test_0123456789abcdef" "sk_test_" = None /\
  exists ptr p', Pool.GetClient 0 Pool.GetStripeClientPool "sk_test_0123456789abcdef" "test"
                 = (Ok ptr, p').
Proof.
  split; [reflexivity|].
  apply (ValidateAPIKey_GetClient "sk_test_0123456789abcdef" "sk_test_" "test" 0
           Pool.GetStripeClientPool). reflexivity.
Defined.

End SecretsFacts.

(* ------------------------------------------------------------------ *)
(** ** Encryption service *)

Module EncryptionMoreFacts.
Import Base64 Encryption Base64Facts EncryptionFacts.

(** [Encrypt] caches its result: once a plaintext has been encrypted, every
    later call returns the same ciphertext without reading a new nonce and
    without changing the service. *)
Theorem Encrypt_repeat_cached
  (seal : list ascii -> list ascii -> list ascii -> list ascii)
  (e : EncryptionService) (rand : list ascii) (p c : string) (e' : EncryptionService)
  (H : Encrypt seal e rand p = (Ok c, e')) :
  forall rand', Encrypt seal e' rand' p = (Ok c, e').
Proof.
  intros rand'. unfold Encrypt in *.
  destruct (String.eqb_spec p ""); [injection H as <- <-; reflexivity|].
  destruct (cached e !! p) as [c0|] eqn:Hc.
  { injection H as <- <-. rewrite Hc. reflexivity. }
  destruct (negb (keyOk (key e))); [discriminate|].
  destruct (Nat.ltb (length rand) nonceSize); [discriminate|].
  injection H as <- <-. cbn [cached]. rewrite lookup_insert_eq. reflexivity.
Qed.

Section RoundTrip.

Variable seal : list ascii -> list ascii -> list ascii -> list ascii.
Variable open : list ascii -> list ascii -> list ascii -> option (list ascii).

Hypothesis open_seal :
  forall k n p, length n = nonceSize -> open k n (seal k n p) = Some p.

(** [Decrypt] inverts [Encrypt]: with a valid AES key, enough random bytes
    for the nonce and a cache of correct encodings, [Encrypt] succeeds on
    every non-empty plaintext, [Decrypt] gives the plaintext back, and the
    cache stays correct. *)
Theorem Encrypt_Decrypt_roundtrip (e : EncryptionService) (rand : list ascii) (p : string)
  (Hk : keyOk (key e) = true) (Hr : (nonceSize <= length rand)%nat)
  (Hc : cache_ok open e) (Hp : p <> "") :
  exists c e', Encrypt seal e rand p = (Ok c, e') /\ Decrypt open e' c = Ok p /\
               cache_ok open e'.
Proof.
  destruct (Encrypt_ok seal open open_seal e rand p Hk Hr Hc Hp)
    as (c & e' & H1 & _ & _ & H2 & H3).
  eauto.
Qed.

End RoundTrip.

(** [Decrypt] rejects, before any use of the cipher, a well-formed base64
    text whose bytes are fewer than the 12-byte GCM nonce. *)
Theorem Decrypt_short_ciphertext
  (open : list ascii -> list ascii -> list ascii -> option (list ascii))
  (k : list ascii) (cache : gmap string string) (l : list ascii)
  (Hk : keyOk k = true) (Hl : (0 < length l < nonceSize)%nat) :
  Decrypt open (mkService k cache) (EncodeToString l) = Err "ciphertext too short".
Proof.
  unfold Decrypt.
  destruct (String.eqb_spec (EncodeToString l) "") as [He|].
  { exfalso. revert He. apply EncodeToString_nonempty. destruct l; simpl in Hl; [lia|discriminate]. }
  rewrite DecodeString_EncodeToString. cbn [key]. rewrite Hk. simpl negb.
  destruct (Nat.ltb_spec (length l) nonceSize); [reflexivity|lia].
Qed.

Lemma Encrypt_repeat_cached_witness :
  Encrypt toy_seal e0 rand0 "sk_live_abc" =
    (Ok (EncodeToString (rand0 ++ list_ascii_of_string "sk_live_abc")),
     mkService key32 (<["sk_live_abc" := EncodeToString (rand0 ++ list_ascii_of_string "sk_live_abc")]> empty)) /\
  Encrypt toy_seal
    (mkService key32 (<["sk_live_abc" := EncodeToString (rand0 ++ list_ascii_of_string "sk_live_abc")]> empty))
    [] "sk_live_abc" =
    (Ok (EncodeToString (rand0 ++ list_ascii_of_string "sk_live_abc")),
     mkService key32 (<["sk_live_abc" := EncodeToString (rand0 ++ list_ascii_of_string "sk_live_abc")]> empty)).
Proof.
  split; [reflexivity|].
  apply (Encrypt_repeat_cached toy_seal e0 rand0). reflexivity.
Defined.

Lemma Encrypt_Decrypt_roundtrip_witness :
  exists c e', Encrypt toy_seal e0 rand0 "sk_live_abc" = (Ok c, e') /\
    Decrypt toy_open e' c = Ok "sk_live_abc" /\ cache_ok toy_open e'.
Proof.
  apply (Encrypt_Decrypt_roundtrip toy_seal toy_open toy_open_seal e0 rand0).
  - reflexivity.
  - vm_compute. lia.
  - apply cache_ok_empty.
  - discriminate.
Defined.

Lemma Decrypt_short_ciphertext_witness :
  Decrypt toy_open e0 (EncodeToString (list_ascii_of_string "abc")) = Err "ciphertext too short".
Proof. apply Decrypt_short_ciphertext; [reflexivity|unfold nonceSize; simpl; lia]. Defined.

End EncryptionMoreFacts.

(* ------------------------------------------------------------------ *)
(** ** Retries, rate limiting and pool maintenance *)

Module ResilienceFacts.
Import Breaker Pool Resilience.

(** A nil error is not retried, and the only non-retryable errors are the
    Stripe errors with a status below 500 other than 429 whose type is
    [invalid_request_error], [authentication_error] or [card_error]. *)
Theorem isRetryableStripeError_false (err : option StripeError) :
  isRetryableStripeError err = false <->
  err = None \/
  exists code ty m, err = Some (StripeAPIError code ty m) /\ (code < 500)%Z /\ code <> 429%Z /\
    (ty = "invalid_request_error" \/ ty = "authentication_error" \/ ty = "card_error").
Proof.
  destruct err as [[m|code ty m]|]; simpl.
  - split; [discriminate|]. intros [H|(? & ? & ? & H & _)]; discriminate.
  - destruct (Z.geb_spec code 500) as [G1|G1].
    { split; [discriminate|]. intros [H|(c & t & m' & H & Hc & _)]; [discriminate|].
      injection H; intros; subst. lia. }
    destruct (Z.eqb_spec code 429) as [G2|G2].
    { split; [discriminate|]. intros [H|(c & t & m' & H & _ & Hc & _)]; [discriminate|].
      injection H; intros; subst. contradiction. }
    destruct (String.eqb_spec ty "api_error") as [->|?].
    { split; [discriminate|]. intros [H|(c & t & m' & H & _ & _ & Ht)]; [discriminate|].
      injection H; intros; subst. destruct Ht as [Ht|[Ht|Ht]]; discriminate. }
    destruct (String.eqb_spec ty "invalid_request_error") as [->|?].
    { split; [|reflexivity]. intros _. right. exists code, "invalid_request_error", m. split; [reflexivity|split; [lia|split; [exact G2|auto]]]. }
    destruct (String.eqb_spec ty "authentication_error") as [->|?].
    { split; [|reflexivity]. intros _. right. exists code, "authentication_error", m. split; [reflexivity|split; [lia|split; [exact G2|auto]]]. }
    destruct (String.eqb_spec ty "card_error") as [->|?].
    { split; [|reflexivity]. intros _. right. exists code, "card_error", m. split; [reflexivity|split; [lia|split; [exact G2|auto]]]. }
    destruct (String.eqb_spec ty "rate_limit_error") as [?|?].
    + split; [discriminate|]. intros [H|(c & t & m' & H & _ & _ & Ht)]; [discriminate|].
      injection H; intros; subst. destruct Ht as [Ht|[Ht|Ht]]; contradiction.
    + split; [discriminate|]. intros [H|(c & t & m' & H & _ & _ & Ht)]; [discriminate|].
      injection H; intros; subst. destruct Ht as [Ht|[Ht|Ht]]; contradiction.
  - split; auto.
Qed.


Lemma minFloat_bounds (a b : Q) : minFloat a b <= a /\ minFloat a b <= b /\
  (minFloat a b == a \/ minFloat a b == b).
Proof.
  unfold minFloat, Customers.qlt. destruct (Qle_bool b a) eqn:E; simpl.
  - apply Qle_bool_iff in E. split; [exact E|split; [apply Qle_refl|right; reflexivity]].
  - assert (~ b <= a) as E' by (rewrite <- Qle_bool_iff; congruence).
    apply Qnot_le_lt in E'.
    split; [apply Qle_refl|split; [apply Qlt_le_weak, E'|left; reflexivity]].
Qed.

Lemma elapsed_nonneg (now last : Z) :
  (last <= now)%Z -> 0 <= inject_Z (now - last) / inject_Z second.
Proof.
  intros H. apply Qle_shift_div_l.
  - unfold second. reflexivity.
  - rewrite Qmult_0_l. change 0 with (inject_Z 0). rewrite <- Zle_Qle. lia.
Qed.

(** The refill step of [Wait]: the token count after refilling lies in
    [[0, maxTokens]]. *)
Lemma refill_bounds (now : Z) (rl : RateLimiter) :
  0 <= tokens rl <= maxTokens rl -> 0 <= refillRate rl -> (lastRefill rl <= now)%Z ->
  0 <= minFloat (maxTokens rl)
         (tokens rl + inject_Z (now - lastRefill rl) / inject_Z second * refillRate rl)
    <= maxTokens rl.
Proof.
  intros [H0 H1] Hr Ht.
  pose proof (elapsed_nonneg now (lastRefill rl) Ht) as He.
  pose proof (Qmult_le_0_compat _ _ He Hr) as Hp.
  destruct (minFloat_bounds (maxTokens rl)
     (tokens rl + inject_Z (now - lastRefill rl) / inject_Z second * refillRate rl))
    as (Ha & Hb & [Hc|Hc]); rewrite Hc; lra.
Qed.


Lemma wait_bounds (now : Z) (ctxDone : bool) (rl : RateLimiter)
  (Hb : 0 <= tokens rl <= maxTokens rl) (Hr : 0 <= refillRate rl)
  (Ht : (lastRefill rl <= now)%Z) :
  let rl' := snd (fst (Wait now ctxDone rl)) in
  0 <= tokens rl' <= maxTokens rl' /\ maxTokens rl' = maxTokens rl /\
  refillRate rl' = refillRate rl /\ lastRefill rl' = now.
Proof.
  pose proof (refill_bounds now rl Hb Hr Ht) as Hm.
  unfold Wait.
  set (t1 := minFloat (maxTokens rl)
         (tokens rl + inject_Z (now - lastRefill rl) / inject_Z second * refillRate rl)) in *.
  destruct (Qle_bool 1 t1) eqn:E; [|destruct ctxDone]; simpl.
  - apply Qle_bool_iff in E. repeat split; lra.
  - repeat split; lra.
  - repeat split; lra.
Qed.

Lemma float_trunc_small (x : Q) : 0 <= x -> x < 1 -> float_trunc x = 0%Z.
Proof.
  intros H0 H1. unfold float_trunc.
  replace (Qle_bool 0 x) with true by (symmetry; apply Qle_bool_iff; exact H0).
  pose proof (Qfloor_le x) as Ha. pose proof (Qlt_floor x) as Hb.
  assert (inject_Z (Qfloor x) < 1) as Hc by lra.
  assert (0 < inject_Z (Qfloor x + 1)) as Hd by lra.
  change 1 with (inject_Z 1) in Hc. change 0 with (inject_Z 0) in Hd.
  rewrite <- Zlt_Qlt in Hc, Hd. lia.
Qed.

Lemma wait_zero_delay (now : Z) (rl : RateLimiter)
  (Hb : 0 <= tokens rl <= maxTokens rl) (Hr : 1 < refillRate rl)
  (Ht : (lastRefill rl <= now)%Z) :
  fst (fst (Wait now false rl)) = Ok tt /\ snd (Wait now false rl) = 0%Z.
Proof.
  assert (0 <= refillRate rl) as Hr' by lra.
  pose proof (refill_bounds now rl Hb Hr' Ht) as Hm.
  unfold Wait.
  set (t1 := minFloat (maxTokens rl)
         (tokens rl + inject_Z (now - lastRefill rl) / inject_Z second * refillRate rl)) in *.
  destruct (Qle_bool 1 t1) eqn:E; simpl; [split; reflexivity|].
  split; [reflexivity|].
  assert (~ 1 <= t1) as E' by (rewrite <- Qle_bool_iff; congruence).
  apply Qnot_le_lt in E'.
  rewrite float_trunc_small; [reflexivity| |].
  - apply Qle_shift_div_l; lra.
  - apply Qlt_shift_div_r; lra.
Qed.


(** [Wait] keeps the token count within [[0, maxTokens]] (for a
    non-negative refill rate and a clock that does not go backwards), keeps
    the capacity and the rate, and records the call time as the last
    refill; whatever the context. *)
Theorem Wait_invariant (now : Z) (ctxDone : bool) (rl : RateLimiter)
  (Hb : 0 <= tokens rl <= maxTokens rl) (Hr : 0 <= refillRate rl)
  (Ht : (lastRefill rl <= now)%Z) :
  let rl' := snd (fst (Wait now ctxDone rl)) in
  0 <= tokens rl' <= maxTokens rl' /\ maxTokens rl' = maxTokens rl /\
  refillRate rl' = refillRate rl /\ lastRefill rl' = now.
Proof. exact (wait_bounds now ctxDone rl Hb Hr Ht). Qed.

(** With a live context and a refill rate above one token per second,
    [Wait] returns nil without waiting: even when no token is left, the
    wait [time.Duration((1-tokens)/refillRate * float64(time.Second))]
    truncates to zero and the bucket is emptied. *)
Theorem Wait_no_delay (now : Z) (rl : RateLimiter)
  (Hb : 0 <= tokens rl <= maxTokens rl) (Hr : 1 < refillRate rl)
  (Ht : (lastRefill rl <= now)%Z) :
  fst (fst (Wait now false rl)) = Ok tt /\ snd (Wait now false rl) = 0%Z.
Proof. exact (wait_zero_delay now rl Hb Hr Ht). Qed.

Lemma Wait_invariant_witness :
  let rl' := snd (fst (Wait 5 true (mkRateLimiter 0 100 10 0))) in
  0 <= tokens rl' <= maxTokens rl' /\ maxTokens rl' = 100 /\
  refillRate rl' = 10 /\ lastRefill rl' = 5%Z.
Proof. apply (Wait_invariant 5 true (mkRateLimiter 0 100 10 0)); simpl; [lra|lra|lia]. Defined.

Lemma Wait_no_delay_witness :
  fst (fst (Wait 0 false (mkRateLimiter 0 100 2 0))) = Ok tt /\
  snd (Wait 0 false (mkRateLimiter 0 100 2 0)) = 0%Z.
Proof. apply (Wait_no_delay 0 (mkRateLimiter 0 100 2 0)); simpl; [lra|lra|lia]. Defined.

Lemma waitSeq_no_delay (times : list Z) (rl : RateLimiter) :
  0 <= tokens rl <= maxTokens rl -> refillRate rl == 10 ->
  Sorted Z.le (lastRefill rl :: times) ->
  Forall (fun r => r = (Ok tt, 0%Z)) (waitSeq times rl).
Proof.
  revert rl. induction times as [|t ts IH]; intros rl Hb Hr Hs; simpl; [constructor|].
  apply Sorted_inv in Hs as [Hs Hh]. apply HdRel_inv in Hh.
  pose proof (wait_bounds t false rl Hb ltac:(lra) Hh) as Hi.
  assert (1 < refillRate rl) as Hr1 by lra.
  destruct (wait_zero_delay t rl Hb Hr1 Hh) as [Hok Hd].
  destruct (Wait t false rl) as [[r rl'] d] eqn:E. simpl in Hok, Hd, Hi. subst r d.
  destruct Hi as (Hb' & _ & Hr' & Hl').
  constructor; [reflexivity|]. apply IH; [exact Hb'|rewrite Hr'; exact Hr|].
  rewrite Hl'. exact Hs.
Qed.

(** The limiter [GetClient] gives a new wrapper (100 tokens, refilled at
    10 per second) never limits: over any non-decreasing sequence of call
    times from its creation, bursts of more than 100 calls included, every
    [Wait] returns nil and sets a zero timer. *)
Theorem GetClient_limiter_never_waits (t0 : Z) (times : list Z)
  (Hs : Sorted Z.le (t0 :: times)) :
  Forall (fun r => r = (Ok tt, 0%Z)) (waitSeq times (mkRateLimiter 100 100 10 t0)).
Proof. apply waitSeq_no_delay; simpl; [lra|reflexivity|exact Hs]. Qed.

Lemma GetClient_limiter_never_waits_witness :
  Forall (fun r => r = (Ok tt, 0%Z))
    (waitSeq (repeat 0%Z 150) (mkRateLimiter 100 100 10 0)).
Proof.
  apply (GetClient_limiter_never_waits 0 (repeat 0%Z 150)).
  assert (forall n, Sorted Z.le (repeat 0%Z n)) as Hr.
  { induction n as [|n IH]; simpl; constructor; [exact IH|].
    destruct n; simpl; constructor; lia. }
  exact (Hr 151%nat).
Defined.


(** With the breaker Open and the reset timeout not yet elapsed,
    [ExecuteWithRetry] fails at once with the circuit-breaker error: [fn]
    is never called, and neither the breaker nor the rate limiter
    changes. *)
Theorem ExecuteWithRetry_refused (now : Z) (ctxDone : bool) (operation : string)
  (fn : nat -> option StripeError) (w : StripeClientWrapper)
  (Hs : state (circuitBreaker w) = CircuitOpen)
  (Ht : (now - lastFailTime (circuitBreaker w) <= resetTimeout (circuitBreaker w))%Z) :
  ExecuteWithRetry now ctxDone operation fn w =
  (Err "circuit breaker open for Stripe API: too many failures", w, 0%nat).
Proof.
  unfold ExecuteWithRetry, CanExecute. rewrite Hs.
  destruct (Z.gtb_spec (now - lastFailTime (circuitBreaker w)) (resetTimeout (circuitBreaker w)));
    [lia|].
  destruct w; reflexivity.
Qed.

Lemma ExecuteWithRetry_refused_witness :
  let w := mkWrapper "k" "k" "test" (mkBreaker 5 (60 * second) 5 0 CircuitOpen)
                     (mkRateLimiter 100 100 10 0) 0 in
  ExecuteWithRetry (30 * second) false "op" (fun _ => None) w =
  (Err "circuit breaker open for Stripe API: too many failures", w, 0%nat).
Proof.
  apply ExecuteWithRetry_refused; simpl; [reflexivity|]. unfold second. lia.
Defined.

Lemma retryLoop_spec (operation : string) (fn : nat -> option StripeError)
  (rem att : nat) (t : Z) (cb : CircuitBreaker) (le : option StripeError) (c0 : nat)
  (res : outcome unit) (cb' : CircuitBreaker) (c : nat) :
  (1 <= rem)%nat ->
  retryLoop operation fn false rem att t cb le c0 = (res, cb', c) ->
  (c0 < c <= c0 + rem)%nat /\
  (forall k, (att <= k < att + (c - c0) - 1)%nat -> isRetryableStripeError (fn k) = true) /\
  (res = Ok tt <-> fn (att + (c - c0) - 1)%nat = None) /\
  ((c - c0 < rem)%nat -> fn (att + (c - c0) - 1)%nat = None \/
                         isRetryableStripeError (fn (att + (c - c0) - 1)%nat) = false).
Proof.
  revert att t cb le c0. induction rem as [|r IH]; intros att t cb le c0 Hrem H; [lia|].
  cbn [retryLoop] in H. rewrite andb_false_r in H.
  destruct (fn att) as [e|] eqn:Hf; cbn -[isRetryableStripeError] in H.
  - destruct (isRetryableStripeError (Some e)) eqn:Hr; cbn -[isRetryableStripeError] in H.
    + destruct r as [|r].
      * cbn in H. injection H; intros; subst.
        replace (att + (S c0 - c0) - 1)%nat with att by lia. rewrite Hf.
        split; [lia|]. split; [intros k Hk; lia|].
        split; [split; discriminate|lia].
      * destruct (IH (S att) _ _ _ _ ltac:(lia) H) as (Hc & Hk & Hok & Hl).
        replace (S att + (c - S c0) - 1)%nat with (att + (c - c0) - 1)%nat in * by lia.
        split; [lia|]. split; [|split; [exact Hok|intros Hlt; apply Hl; lia]].
        intros k Hk'. destruct (Nat.eq_dec k att) as [->|Hne]; [rewrite Hf; exact Hr|].
        apply Hk. lia.
    + injection H; intros; subst.
      replace (att + (S c0 - c0) - 1)%nat with att by lia. rewrite Hf.
      split; [lia|]. split; [intros k Hk; lia|].
      split; [split; discriminate|intros _; right; exact Hr].
  - injection H; intros; subst.
    replace (att + (S c0 - c0) - 1)%nat with att by lia. rewrite Hf.
    split; [lia|]. split; [intros k Hk; lia|].
    split; [split; reflexivity|intros _; left; reflexivity].
Qed.


Lemma Wait_live_ok (now : Z) (rl : RateLimiter) : fst (fst (Wait now false rl)) = Ok tt.
Proof. unfold Wait. destruct (Qle_bool 1 _); reflexivity. Qed.

(** When the breaker lets the call through and the context stays live,
    [ExecuteWithRetry] calls [fn] between 1 and 4 times: every call but the
    last returned a retryable error, the result is nil exactly when the
    last call returned nil, and fewer than 4 calls means the last one
    returned nil or a non-retryable error. *)
Theorem ExecuteWithRetry_attempts (now : Z) (operation : string)
  (fn : nat -> option StripeError) (w w' : StripeClientWrapper)
  (res : outcome unit) (calls : nat)
  (Hok : fst (CanExecute now (circuitBreaker w)) = true)
  (H : ExecuteWithRetry now false operation fn w = (res, w', calls)) :
  (1 <= calls <= 4)%nat /\
  (forall k, (k < calls - 1)%nat -> isRetryableStripeError (fn k) = true) /\
  (res = Ok tt <-> fn (calls - 1)%nat = None) /\
  ((calls < 4)%nat -> fn (calls - 1)%nat = None \/
                      isRetryableStripeError (fn (calls - 1)%nat) = false).
Proof.
  unfold ExecuteWithRetry in H.
  destruct (CanExecute now (circuitBreaker w)) as [ok cb]. simpl in Hok. subst ok. cbn [negb] in H.
  pose proof (Wait_live_ok now (rateLimiter w)) as Hw.
  destruct (Wait now false (rateLimiter w)) as [[r rl] d]. simpl in Hw. subst r.
  destruct (retryLoop _ _ _ _ _ _ _ _ _) as [[res' cb'] c] eqn:E.
  injection H; intros; subst.
  apply retryLoop_spec in E; [|unfold maxRetries; lia].
  unfold maxRetries in E. rewrite Nat.sub_0_r, Nat.add_0_l in E.
  destruct E as (Hc & Hk & Hr & Hl).
  split; [lia|]. split; [intros k Hk'; apply Hk; lia|]. split; [exact Hr|exact Hl].
Qed.


Definition flaky (k : nat) : option StripeError :=
  match k with O => Some (NetworkError "connection reset") | _ => None end.

Definition w_fresh : StripeClientWrapper :=
  mkWrapper "sk_test_0123456789" "sk_test_0123456789" "test" newBreaker
            (mkRateLimiter 100 100 10 0) 0.

Lemma ExecuteWithRetry_attempts_witness :
  let r := ExecuteWithRetry 0 false "list_customers" flaky w_fresh in
  (1 <= snd r <= 4)%nat /\
  (forall k, (k < snd r - 1)%nat -> isRetryableStripeError (flaky k) = true) /\
  (fst (fst r) = Ok tt <-> flaky (snd r - 1)%nat = None) /\
  ((snd r < 4)%nat -> flaky (snd r - 1)%nat = None \/
                      isRetryableStripeError (flaky (snd r - 1)%nat) = false).
Proof.
  intros r.
  apply (ExecuteWithRetry_attempts 0 "list_customers" flaky w_fresh (snd (fst r))
           (fst (fst r)) (snd r)); [reflexivity|vm_compute; reflexivity].
Defined.

Lemma RecordFailure_count (t : Z) (cb : CircuitBreaker) :
  (0 <= failures cb)%Z -> (failures cb + 1 < 2 ^ 32)%Z ->
  failures (RecordFailure t cb) = (failures cb + 1)%Z /\
  state (RecordFailure t cb) =
    (if (failures cb + 1 >=? maxFailures cb)%Z then CircuitOpen else state cb) /\
  maxFailures (RecordFailure t cb) = maxFailures cb.
Proof.
  intros H0 H1. unfold RecordFailure, uint32_wrap. simpl.
  rewrite Z.mod_small by lia.
  split; [reflexivity|split; [|reflexivity]].
  destruct (failures cb + 1 >=? maxFailures cb)%Z; [|reflexivity].
  destruct (state cb); reflexivity.
Qed.

Lemma retryLoop_0 (operation : string) (fn : nat -> option StripeError) (ctxDone : bool)
  (att : nat) (t : Z) (cb : CircuitBreaker) (le : option StripeError) (c : nat) :
  retryLoop operation fn ctxDone 0 att t cb le c =
  (Err ("stripe operation " ++ operation ++ " failed after 3 retries: " ++ errOpt le), cb, c).
Proof. reflexivity. Qed.

Lemma retryLoop_S_live (operation : string) (fn : nat -> option StripeError)
  (r att : nat) (t : Z) (cb : CircuitBreaker) (le : option StripeError) (c : nat) :
  retryLoop operation fn false (S r) att t cb le c =
  let t' := if Nat.ltb 0 att
            then (t + Z.shiftl 1 (Z.of_nat att - 1) * second)%Z else t in
  match fn att with
  | None => (Ok tt, RecordSuccess cb, S c)
  | Some err =>
      if negb (isRetryableStripeError (Some err)) then
        (Err ("non-retryable Stripe error in " ++ operation ++ ": " ++ errString err),
         RecordFailure t' cb, S c)
      else retryLoop operation fn false r (S att) t' (RecordFailure t' cb) (Some err) (S c)
  end.
Proof. destruct att; reflexivity. Qed.

Lemma retryLoop_all_retryable (operation : string) (fn : nat -> option StripeError)
  (Hfn : forall k, exists e, fn k = Some e /\ isRetryableStripeError (Some e) = true)
  (rem att : nat) (t : Z) (cb : CircuitBreaker) (le : option StripeError) (c0 : nat) :
  (1 <= rem)%nat -> (0 <= failures cb)%Z -> (failures cb + Z.of_nat rem < 2 ^ 32)%Z ->
  exists cb',
    retryLoop operation fn false rem att t cb le c0 =
      (Err ("stripe operation " ++ operation ++ " failed after 3 retries: " ++
            errOpt (fn (att + rem - 1)%nat)), cb', (c0 + rem)%nat) /\
    failures cb' = (failures cb + Z.of_nat rem)%Z /\
    state cb' = (if (failures cb + Z.of_nat rem >=? maxFailures cb)%Z then CircuitOpen
                 else state cb) /\
    maxFailures cb' = maxFailures cb.
Proof.
  revert att t cb le c0.
  induction rem as [|r IH]; intros att t cb le c0 Hrem H0 H1; [lia|].
  destruct (Hfn att) as (e & He & Hr).
  rewrite retryLoop_S_live, He. cbv zeta. rewrite Hr. cbn [negb].
  set (t' := if (0 <? att)%nat then (t + Z.shiftl 1 (Z.of_nat att - 1) * second)%Z else t).
  destruct (RecordFailure_count t' cb H0 ltac:(lia)) as (Hf & Hs & Hm).
  destruct r as [|r].
  - exists (RecordFailure t' cb). rewrite retryLoop_0.
    replace (att + 1 - 1)%nat with att by lia. rewrite He.
    split; [f_equal; lia|]. rewrite Hf, Hs, Hm. split; [lia|split; [|reflexivity]].
    replace (failures cb + Z.of_nat 1)%Z with (failures cb + 1)%Z by lia. reflexivity.
  - destruct (IH (S att) t' (RecordFailure t' cb) (Some e) (S c0) ltac:(lia)
               ltac:(lia) ltac:(lia)) as (cb' & Hl & Hf' & Hs' & Hm').
    exists cb'. rewrite Hl.
    replace (S att + S r - 1)%nat with (att + S (S r) - 1)%nat by lia.
    split; [f_equal; lia|]. rewrite Hf', Hs', Hm', Hf, Hs, Hm.
    split; [lia|split; [|reflexivity]].
    replace (failures cb + 1 + Z.of_nat (S r))%Z with (failures cb + Z.of_nat (S (S r)))%Z by lia.
    destruct (Z.geb_spec (failures cb + Z.of_nat (S (S r))) (maxFailures cb)); [reflexivity|].
    destruct (Z.geb_spec (failures cb + 1) (maxFailures cb)); [lia|reflexivity].
Qed.

(** [ExecuteWithRetry] consults the breaker only before the first attempt:
    from a Closed breaker, when every call of [fn] returns a retryable
    error, [fn] is called 4 times even when the failures recorded on the
    way open the breaker; the call fails with the last error, and the
    breaker has recorded 4 more failures and is Open exactly when they
    reach [maxFailures]. *)
Theorem ExecuteWithRetry_breaker_consulted_once (now : Z) (operation : string)
  (fn : nat -> option StripeError) (w : StripeClientWrapper)
  (Hc : state (circuitBreaker w) = CircuitClosed)
  (H0 : (0 <= failures (circuitBreaker w))%Z)
  (H1 : (failures (circuitBreaker w) + 4 < 2 ^ 32)%Z)
  (Hfn : forall k, exists e, fn k = Some e /\ isRetryableStripeError (Some e) = true) :
  exists w',
    ExecuteWithRetry now false operation fn w =
      (Err ("stripe operation " ++ operation ++ " failed after 3 retries: " ++
            errOpt (fn 3%nat)), w', 4%nat) /\
    failures (circuitBreaker w') = (failures (circuitBreaker w) + 4)%Z /\
    state (circuitBreaker w') =
      (if (failures (circuitBreaker w) + 4 >=? maxFailures (circuitBreaker w))%Z
       then CircuitOpen else CircuitClosed).
Proof.
  unfold ExecuteWithRetry, CanExecute. rewrite Hc. cbn [negb].
  pose proof (Wait_live_ok now (rateLimiter w)) as Hw.
  destruct (Wait now false (rateLimiter w)) as [[r rl] d]. simpl in Hw. subst r.
  destruct (retryLoop_all_retryable operation fn Hfn (S maxRetries) 0 (now + d)
              (circuitBreaker w) None 0 ltac:(unfold maxRetries; lia) H0
              ltac:(unfold maxRetries; simpl; lia)) as (cb' & Hl & Hf & Hs & _).
  rewrite Hl. exists (with_breaker (with_limiter (with_breaker w (circuitBreaker w)) rl) cb').
  simpl. rewrite Hf, Hs, Hc. unfold maxRetries in *. simpl Z.of_nat.
  split; [reflexivity|split; reflexivity].
Qed.

Definition always_down (k : nat) : option StripeError :=
  Some (StripeAPIError 503 "api_error" "service unavailable").

Lemma ExecuteWithRetry_breaker_consulted_once_witness :
  let w := mkWrapper "sk_test_0123456789" "sk_test_0123456789" "test"
                     (mkBreaker 5 (60 * second) 1 0 CircuitClosed)
                     (mkRateLimiter 100 100 10 0) 0 in
  exists w',
    ExecuteWithRetry 0 false "list_customers" always_down w =
      (Err ("stripe operation list_customers failed after 3 retries: service unavailable"),
       w', 4%nat) /\
    failures (circuitBreaker w') = 5%Z /\ state (circuitBreaker w') = CircuitOpen.
Proof.
  intros w.
  apply (ExecuteWithRetry_breaker_consulted_once 0 "list_customers" always_down w);
    simpl; [reflexivity|lia|lia|].
  intros k. exists (StripeAPIError 503 "api_error" "service unavailable").
  split; reflexivity.
Defined.


Lemma cleanup_lookup (now maxIdleTime : Z) (p : StripeClientPool)
  (k : string) (ptr : nat) :
  (clients (CleanupIdleClients now maxIdleTime p) !! k = Some ptr <->
   clients p !! k = Some ptr /\
   forall w, heap p !! ptr = Some w -> (now - lastUsed w <= maxIdleTime)%Z) /\
  heap (CleanupIdleClients now maxIdleTime p) = heap p /\
  next_ptr (CleanupIdleClients now maxIdleTime p) = next_ptr p.
Proof.
  split; [|split; reflexivity].
  unfold CleanupIdleClients. simpl. rewrite map_lookup_filter_Some. simpl.
  unfold keepClient. split.
  - intros [Hk Hw]. split; [exact Hk|]. intros w Hw'. rewrite Hw' in Hw.
    destruct (Z.gtb_spec (now - lastUsed w) maxIdleTime); [discriminate|lia].
  - intros [Hk Hw]. split; [exact Hk|].
    destruct (heap p !! ptr) as [w|] eqn:E; [|reflexivity].
    specialize (Hw w eq_refl).
    destruct (Z.gtb_spec (now - lastUsed w) maxIdleTime); [lia|reflexivity].
Qed.


(** After [CleanupIdleClients] removed an idle client, [GetClient] for the
    same key and mode does not find it: it allocates a new wrapper with a
    fresh Closed breaker and a full rate limiter, so the failures the old
    breaker had recorded are forgotten. *)
Theorem CleanupIdleClients_resets_breaker (now maxIdleTime now' : Z) (p : StripeClientPool)
  (key mode : string) (ptr : nat) (w : StripeClientWrapper)
  (Hk : (12 <= String.length key)%nat)
  (Hc : clients p !! cacheKeyOf key mode = Some ptr)
  (Hw : heap p !! ptr = Some w)
  (Hidle : (now - lastUsed w > maxIdleTime)%Z) :
  exists p',
    GetClient now' (CleanupIdleClients now maxIdleTime p) key mode = (Ok (next_ptr p), p') /\
    heap p' !! next_ptr p =
      Some (mkWrapper key key mode newBreaker (mkRateLimiter 100 100 10 now') now').
Proof.
  assert (clients (CleanupIdleClients now maxIdleTime p) !! cacheKeyOf key mode = None) as Hn.
  { destruct (clients (CleanupIdleClients now maxIdleTime p) !! cacheKeyOf key mode)
      as [ptr'|] eqn:E; [|reflexivity].
    apply cleanup_lookup in E as [E Hw'].
    rewrite Hc in E. injection E as <-. specialize (Hw' w Hw). lia. }
  rewrite (PoolFacts.GetClient_new now' _ key mode Hk Hn).
  eexists. split; [reflexivity|]. simpl. apply lookup_insert_eq.
Qed.


Lemma CleanupIdleClients_resets_breaker_witness :
  exists p',
    GetClient (11 * 60 * second)
      (CleanupIdleClients (10 * 60 * second) (5 * 60 * second)
         (snd (GetClient 0 GetStripeClientPool "sk_test_0123456789" "test")))
      "sk_test_0123456789" "test" = (Ok 1%nat, p') /\
    heap p' !! 1%nat =
      Some (mkWrapper "sk_test_0123456789" "sk_test_0123456789" "test" newBreaker
              (mkRateLimiter 100 100 10 (11 * 60 * second)) (11 * 60 * second)).
Proof.
  apply (CleanupIdleClients_resets_breaker (10 * 60 * second) (5 * 60 * second)
           (11 * 60 * second) (snd (GetClient 0 GetStripeClientPool "sk_test_0123456789" "test"))
           "sk_test_0123456789" "test" 0%nat
           (mkWrapper "sk_test_0123456789" "sk_test_0123456789" "test" newBreaker
              (mkRateLimiter 100 100 10 0) 0)).
  - simpl. lia.
  - vm_compute. reflexivity.
  - vm_compute. reflexivity.
  - unfold second. simpl. lia.
Defined.

(** Every cache entry designates an allocated wrapper. *)
Definition pool_wf (p : StripeClientPool) : Prop :=
  forall k ptr, clients p !! k = Some ptr -> is_Some (heap p !! ptr).

Lemma pool_wf_empty : pool_wf GetStripeClientPool.
Proof. intros k ptr H. simpl in H. rewrite lookup_empty in H. discriminate. Qed.

Lemma pool_wf_GetClient (now : Z) (p : StripeClientPool) (key mode : string) :
  pool_wf p -> pool_wf (snd (GetClient now p key mode)).
Proof.
  intros Hwf. unfold GetClient.
  destruct (String.eqb key ""); [exact Hwf|].
  destruct (slice_prefix key 12) as [prefix|e|]; [|exact Hwf|exact Hwf].
  destruct (clients p !! (mode ++ ":" ++ prefix)) as [ptr|] eqn:Hc.
  - intros k q Hk. simpl in Hk |- *. specialize (Hwf k q Hk).
    destruct (heap p !! ptr) as [w|] eqn:Hw; [|exact Hwf].
    destruct (decide (ptr = q)) as [->|Hne].
    + rewrite lookup_insert_eq. eexists; reflexivity.
    + rewrite lookup_insert_ne by exact Hne. exact Hwf.
  - intros k q Hk. simpl in Hk |- *.
    destruct (decide ((mode ++ ":" ++ prefix) = k)) as [<-|Hne].
    + rewrite lookup_insert_eq in Hk. injection Hk as <-.
      rewrite lookup_insert_eq. eexists; reflexivity.
    + rewrite lookup_insert_ne in Hk by exact Hne.
      destruct (decide (next_ptr p = q)) as [->|Hq].
      * rewrite lookup_insert_eq. eexists; reflexivity.
      * rewrite lookup_insert_ne by exact Hq. exact (Hwf k q Hk).
Qed.

Lemma pool_wf_Cleanup (now maxIdleTime : Z) (p : StripeClientPool) :
  pool_wf p -> pool_wf (CleanupIdleClients now maxIdleTime p).
Proof.
  intros Hwf k q Hk. apply cleanup_lookup in Hk as [Hk _].
  exact (Hwf k q Hk).
Qed.

Lemma pool_wf_run (ops : list PoolOp) (p : StripeClientPool) :
  pool_wf p -> pool_wf (run_pool_ops p ops).
Proof.
  unfold run_pool_ops. revert p. induction ops as [|o ops IH]; intros p Hwf; [exact Hwf|].
  simpl. apply IH. destruct o; simpl;
    [apply pool_wf_GetClient|apply pool_wf_Cleanup]; exact Hwf.
Qed.

Lemma countStates_ok (hp : gmap nat StripeClientWrapper) (l : list (string * nat))
  (m : Metrics) :
  Forall (fun kv => is_Some (hp !! kv.2)) l ->
  exists m', countStates hp l m = Ok m' /\
    total_clients m' = (total_clients m + Z.of_nat (List.length l))%Z /\
    (closed m' + open_ m' + half_open m')%Z =
      (closed m + open_ m + half_open m + Z.of_nat (List.length l))%Z.
Proof.
  revert m. induction l as [|[k ptr] l IH]; intros m Hl; simpl.
  - exists m. split; [reflexivity|split; lia].
  - apply Forall_cons in Hl as [[w Hw] Hl]. simpl in Hw. rewrite Hw.
    destruct (state (circuitBreaker w));
      match goal with |- exists _, countStates _ _ ?m0 = _ /\ _ =>
        destruct (IH m0 Hl) as (m' & Hc & Ht & Hs); exists m';
        split; [exact Hc|]; simpl in Ht, Hs; split; lia end.
Qed.

(** On every pool the package can reach (from the empty pool, through
    [GetClient] and [CleanupIdleClients] calls), [GetMetrics] does not
    panic; [total_clients] is the number of cache entries, and the three
    circuit-state counts add up to it. *)
Theorem GetMetrics_reachable (ops : list PoolOp) :
  let p := run_pool_ops GetStripeClientPool ops in
  exists m, GetMetrics p = Ok m /\
    total_clients m = Z.of_nat (size (clients p)) /\
    (closed m + open_ m + half_open m)%Z = total_clients m.
Proof.
  intros p. pose proof (pool_wf_run ops _ pool_wf_empty) as Hwf. fold p in Hwf.
  unfold GetMetrics.
  destruct (countStates_ok (heap p) (map_to_list (clients p)) (mkMetrics 0 0 0 0))
    as (m & Hc & Ht & Hs).
  { apply Forall_forall. intros [k ptr] Hin. apply elem_of_map_to_list in Hin.
    exact (Hwf k ptr Hin). }
  exists m. rewrite length_map_to_list in Ht, Hs. simpl in Ht, Hs.
  split; [exact Hc|split; lia].
Qed.

End ResilienceFacts.

(* ------------------------------------------------------------------ *)
(** ** The rest of the metrics store *)

Module StoreMoreFacts.
Import Store StoreMore.
Open Scope Z_scope.

Lemma appendBounded_last {T : Type} (n : nat) (h : list T) (s : T) :
  (1 <= n)%nat -> exists pre, appendBounded n h s = (pre ++ [s])%list.
Proof.
  intros Hn. unfold appendBounded.
  destruct (Nat.ltb_spec n (List.length (h ++ [s])%list)).
  - exists (drop (List.length (h ++ [s])%list - n) h).
    rewrite drop_app_le; [reflexivity|]. rewrite length_app in *. simpl in *. lia.
  - exists h. reflexivity.
Qed.

Lemma appendBounded_length {T : Type} (n : nat) (h : list T) (s : T) :
  List.length (appendBounded n h s) = Nat.min (S (List.length h)) n.
Proof.
  unfold appendBounded.
  destruct (Nat.ltb_spec n (List.length (h ++ [s])%list));
    rewrite ?length_drop, ?length_app in *; simpl length in *; lia.
Qed.

Lemma lastSnapshot_snoc (pre : list RevenueSnapshot) (s : RevenueSnapshot) :
  Customers.lastSnapshot (pre ++ [s])%list = Some s.
Proof.
  induction pre as [|a pre IH]; [reflexivity|].
  simpl. destruct (pre ++ [s])%list eqn:E; [destruct pre; discriminate|exact IH].
Qed.

Lemma lastCustomerSnapshot_snoc (pre : list CustomerSnapshot) (s : CustomerSnapshot) :
  lastCustomerSnapshot (pre ++ [s])%list = Some s.
Proof.
  induction pre as [|a pre IH]; [reflexivity|].
  simpl. destruct (pre ++ [s])%list eqn:E; [destruct pre; discriminate|exact IH].
Qed.

(** After a save, [GetLatestRevenue] / [GetLatestCustomers] for the
    snapshot's mode return that snapshot (when [maxHistory] is at least 1),
    and the latest snapshots of the other modes and of the other kind do not
    change. *)
Theorem GetLatest_after_save (db : SimpleMetricsDB) (r : RevenueSnapshot)
  (c : CustomerSnapshot) (Hmax : (1 <= maxHistory db)%nat) :
  Customers.GetLatestRevenue (SaveRevenueSnapshot db r) (rsMode r) = Some r /\
  (forall m, m <> rsMode r ->
     Customers.GetLatestRevenue (SaveRevenueSnapshot db r) m = Customers.GetLatestRevenue db m) /\
  (forall m, GetLatestCustomers (SaveRevenueSnapshot db r) m = GetLatestCustomers db m) /\
  GetLatestCustomers (SaveCustomerSnapshot db c) (csMode c) = Some c /\
  (forall m, m <> csMode c ->
     GetLatestCustomers (SaveCustomerSnapshot db c) m = GetLatestCustomers db m) /\
  (forall m, Customers.GetLatestRevenue (SaveCustomerSnapshot db c) m =
             Customers.GetLatestRevenue db m).
Proof.
  unfold Customers.GetLatestRevenue, GetLatestCustomers, SaveRevenueSnapshot,
    SaveCustomerSnapshot; simpl.
  split; [|split; [|split; [|split; [|split]]]].
  - rewrite lookup_insert_eq.
    destruct (appendBounded_last (maxHistory db) (default [] (revenueHistory db !! rsMode r)) r Hmax)
      as [pre ->].
    apply lastSnapshot_snoc.
  - intros m Hm. rewrite lookup_insert_ne by congruence. reflexivity.
  - reflexivity.
  - rewrite lookup_insert_eq.
    destruct (appendBounded_last (maxHistory db) (default [] (customerHistory db !! csMode c)) c Hmax)
      as [pre ->].
    apply lastCustomerSnapshot_snoc.
  - intros m Hm. rewrite lookup_insert_ne by congruence. reflexivity.
  - reflexivity.
Qed.


Definition snap_r (t : Z) (m : string) : RevenueSnapshot :=
  mkRevenueSnapshot t 1000 12000 0 0 0 m.

Definition snap_c (t : Z) (m : string) : CustomerSnapshot :=
  mkCustomerSnapshot t 50 2 1 2 49 m.

Lemma GetLatest_after_save_witness :
  let db := GetSimpleMetricsDB in
  Customers.GetLatestRevenue (SaveRevenueSnapshot db (snap_r 1 "live")) "live"
    = Some (snap_r 1 "live") /\
  (forall m, m <> "live" ->
     Customers.GetLatestRevenue (SaveRevenueSnapshot db (snap_r 1 "live")) m =
     Customers.GetLatestRevenue db m) /\
  (forall m, GetLatestCustomers (SaveRevenueSnapshot db (snap_r 1 "live")) m =
             GetLatestCustomers db m) /\
  GetLatestCustomers (SaveCustomerSnapshot db (snap_c 2 "test")) "test"
    = Some (snap_c 2 "test") /\
  (forall m, m <> "test" ->
     GetLatestCustomers (SaveCustomerSnapshot db (snap_c 2 "test")) m =
     GetLatestCustomers db m) /\
  (forall m, Customers.GetLatestRevenue (SaveCustomerSnapshot db (snap_c 2 "test")) m =
             Customers.GetLatestRevenue db m).
Proof.
  apply (GetLatest_after_save GetSimpleMetricsDB (snap_r 1 "live") (snap_c 2 "test")).
  simpl. lia.
Defined.

Lemma filter_filter_andb {A : Type} (p q : A -> bool) (l : list A) :
  List.filter p (List.filter q l) = List.filter (fun x => q x && p x) l.
Proof.
  induction l as [|a l IH]; simpl; [reflexivity|].
  destruct (q a); simpl; [destruct (p a); simpl|]; rewrite ?IH; reflexivity.
Qed.

Lemma filter_ext_eq {A : Type} (p q : A -> bool) (l : list A) :
  (forall x, p x = q x) -> List.filter p l = List.filter q l.
Proof.
  intros H. induction l as [|a l IH]; simpl; [reflexivity|]. rewrite H, IH. reflexivity.
Qed.

Lemma inRange_cutoff (cutoff a b t : Z) :
  (cutoff <? t) && inRange a b t = inRange (Z.max a (cutoff + 1)) b t.
Proof.
  unfold inRange.
  destruct (Z.ltb_spec cutoff t), (Z.eqb_spec t a), (Z.ltb_spec a t),
    (Z.eqb_spec t (Z.max a (cutoff + 1))), (Z.ltb_spec (Z.max a (cutoff + 1)) t);
    simpl; try reflexivity; lia.
Qed.

(** After [CleanupOldMetrics] at time [now], a history query returns what
    the same query on the old store returns with its start moved up to
    just after the cutoff [now - retentionPeriod]: snapshots at the cutoff
    itself are dropped ([After] is strict); for both kinds. *)
Theorem CleanupOldMetrics_history (now retentionPeriod : Z) (db : SimpleMetricsDB)
  (mode : string) (startTime endTime : Z) :
  GetRevenueHistory (CleanupOldMetrics now retentionPeriod db) mode startTime endTime =
    GetRevenueHistory db mode (Z.max startTime (now - retentionPeriod + 1)) endTime /\
  GetCustomerHistory (CleanupOldMetrics now retentionPeriod db) mode startTime endTime =
    GetCustomerHistory db mode (Z.max startTime (now - retentionPeriod + 1)) endTime.
Proof.
  unfold GetRevenueHistory, GetCustomerHistory, CleanupOldMetrics. simpl.
  rewrite !lookup_fmap.
  split.
  - destruct (revenueHistory db !! mode) as [h|]; simpl; [|reflexivity].
    rewrite filter_filter_andb. apply filter_ext_eq. intros x. apply inRange_cutoff.
  - destruct (customerHistory db !! mode) as [h|]; simpl; [|reflexivity].
    rewrite filter_filter_andb. apply filter_ext_eq. intros x. apply inRange_cutoff.
Qed.

(** A cleanup with a later (or equal) cutoff subsumes an earlier one: the
    store after both is the store after the later one alone.  In
    particular repeating a cleanup changes nothing. *)
Theorem CleanupOldMetrics_compose (now1 r1 now2 r2 : Z) (db : SimpleMetricsDB)
  (Hc : now1 - r1 <= now2 - r2) :
  CleanupOldMetrics now2 r2 (CleanupOldMetrics now1 r1 db) = CleanupOldMetrics now2 r2 db.
Proof.
  unfold CleanupOldMetrics. simpl. f_equal.
  - rewrite <- map_fmap_compose. apply map_fmap_ext. intros i h _. simpl.
    rewrite filter_filter_andb. apply filter_ext_eq. intros x.
    destruct (Z.ltb_spec (now1 - r1) (rsTimestamp x)), (Z.ltb_spec (now2 - r2) (rsTimestamp x));
      simpl; try reflexivity; lia.
  - rewrite <- map_fmap_compose. apply map_fmap_ext. intros i h _. simpl.
    rewrite filter_filter_andb. apply filter_ext_eq. intros x.
    destruct (Z.ltb_spec (now1 - r1) (csTimestamp x)), (Z.ltb_spec (now2 - r2) (csTimestamp x));
      simpl; try reflexivity; lia.
Qed.

Lemma CleanupOldMetrics_compose_witness :
  let db := SaveRevenueSnapshot (SaveRevenueSnapshot GetSimpleMetricsDB (snap_r 5 "live"))
                                (snap_r 20 "live") in
  CleanupOldMetrics 30 15 (CleanupOldMetrics 10 5 db) = CleanupOldMetrics 30 15 db.
Proof. intros db. apply CleanupOldMetrics_compose. lia. Defined.


Lemma totalLength_insert {A : Type} (m : gmap string (list A)) (i : string) (y : list A) :
  (totalLength (<[i:=y]> m) + List.length (default [] (m !! i)) =
   totalLength m + List.length y)%nat.
Proof.
  unfold totalLength.
  assert (forall (m' : gmap string (list A)) j x, m' !! j = None ->
            map_fold (fun _ (h : list A) (t : nat) => (t + List.length h)%nat) 0%nat (<[j:=x]> m') =
            (map_fold (fun _ (h : list A) (t : nat) => (t + List.length h)%nat) 0%nat m' +
             List.length x)%nat) as Hins.
  { intros m' j x Hj. rewrite map_fold_insert_L; [reflexivity|intros; lia|exact Hj]. }
  destruct (m !! i) as [x|] eqn:Hi; simpl.
  - rewrite <- (insert_delete_eq m i y).
    rewrite <- (insert_delete_id m i x Hi) at 2.
    rewrite !Hins by apply lookup_delete_eq. lia.
  - rewrite Hins by exact Hi. lia.
Qed.

(** A revenue save adds one to [revenue_metrics_count] unless the mode's
    history already holds [maxHistory] snapshots (then the oldest is
    evicted and the count stays); [customer_metrics_count] does not change,
    and [modes] grows by one exactly when the mode had no revenue history
    yet. *)
Theorem GetDatabaseStats_after_save (db : SimpleMetricsDB) (s : RevenueSnapshot)
  (Hh : (List.length (default [] (revenueHistory db !! rsMode s)) <= maxHistory db)%nat) :
  revenue_metrics_count (GetDatabaseStats (SaveRevenueSnapshot db s)) =
    (revenue_metrics_count (GetDatabaseStats db) +
     if Nat.ltb (List.length (default [] (revenueHistory db !! rsMode s))) (maxHistory db)
     then 1 else 0)%nat /\
  customer_metrics_count (GetDatabaseStats (SaveRevenueSnapshot db s)) =
    customer_metrics_count (GetDatabaseStats db) /\
  modes (GetDatabaseStats (SaveRevenueSnapshot db s)) =
    (modes (GetDatabaseStats db) +
     match revenueHistory db !! rsMode s with Some _ => 0 | None => 1 end)%nat.
Proof.
  unfold GetDatabaseStats, SaveRevenueSnapshot. simpl.
  split; [|split; [reflexivity|]].
  - pose proof (totalLength_insert (revenueHistory db) (rsMode s)
      (appendBounded (maxHistory db) (default [] (revenueHistory db !! rsMode s)) s)) as E.
    rewrite appendBounded_length in E.
    destruct (Nat.ltb_spec (List.length (default [] (revenueHistory db !! rsMode s)))
                           (maxHistory db)); lia.
  - rewrite map_size_insert. destruct (revenueHistory db !! rsMode s); simpl; lia.
Qed.

Lemma GetDatabaseStats_after_save_witness :
  let db := SaveRevenueSnapshot GetSimpleMetricsDB (snap_r 1 "live") in
  revenue_metrics_count (GetDatabaseStats (SaveRevenueSnapshot db (snap_r 2 "test"))) =
    (revenue_metrics_count (GetDatabaseStats db) + 1)%nat /\
  customer_metrics_count (GetDatabaseStats (SaveRevenueSnapshot db (snap_r 2 "test"))) =
    customer_metrics_count (GetDatabaseStats db) /\
  modes (GetDatabaseStats (SaveRevenueSnapshot db (snap_r 2 "test"))) =
    (modes (GetDatabaseStats db) + 1)%nat.
Proof.
  intros db.
  apply (GetDatabaseStats_after_save db (snap_r 2 "test")). vm_compute. lia.
Defined.

End StoreMoreFacts.

(* ------------------------------------------------------------------ *)
(** ** Webhook handlers and the metrics store *)

Module WebhookStoreFacts.
Import Revenue Store Webhook StoreMore WebhookStore.
Open Scope Q_scope.

Lemma subscriptionItemsMRR_sumItems (items : list SubscriptionItem) (acc acc' : Q) :
  acc == acc' ->
  (exists x y, subscriptionItemsMRR acc items = Ok x /\ sumItems acc' items = Ok y /\ x == y) \/
  (subscriptionItemsMRR acc items = Panic /\ sumItems acc' items = Panic).
Proof.
  revert acc acc'. induction items as [|item rest IH]; intros acc acc' Hacc; simpl.
  - left. exists acc, acc'. auto.
  - destruct (ItemPrice item) as [p|]; [|apply IH; exact Hacc].
    destruct (Recurring p) as [r|]; [|right; split; reflexivity].
    destruct (monthlyAmount (inject_Z (UnitAmount p) / 100) (Interval r) (IntervalCount r))
      as [m|]; apply IH; rewrite Hacc; ring.
Qed.

(** [calculateSubscriptionMRR], which the webhook handlers use, computes
    the same value as the per-subscription loop of the widget's
    [calculateMRR] (an unknown interval adds [0 * quantity] instead of
    being skipped), and both panic on the same items (a price without
    [Recurring]); on well-formed items it is the normalised MRR of C1. *)
Theorem calculateSubscriptionMRR_agrees (sub : Subscription) :
  ((exists x y, calculateSubscriptionMRR sub = Ok x /\ sumItems 0 (Items sub) = Ok y /\ x == y) \/
   (calculateSubscriptionMRR sub = Panic /\ sumItems 0 (Items sub) = Panic)) /\
  (Forall item_ok (Items sub) ->
   exists v, calculateSubscriptionMRR sub = Ok v /\ v == mrr_spec (Items sub)).
Proof.
  split; [apply subscriptionItemsMRR_sumItems; reflexivity|].
  intros Hok. destruct (RevenueFacts.sumItems_spec (Items sub) 0 Hok) as (v & Hv & Hveq).
  destruct (subscriptionItemsMRR_sumItems (Items sub) 0 0 (Qeq_refl 0))
    as [(x & y & Hx & Hy & Hxy)|[_ Hp]]; [|congruence].
  rewrite Hv in Hy. injection Hy as <-. exists x. split; [exact Hx|].
  rewrite Hxy, Hveq. ring.
Qed.

Definition sub_example : Subscription :=
  mkSubscription [mkItem (Some (mkPrice 1200 (Some (mkRecurring "year" 1)))) 2;
                  mkItem (Some (mkPrice 500 (Some (mkRecurring "week" 1)))) 1].

Lemma calculateSubscriptionMRR_agrees_witness :
  Forall item_ok (Items sub_example) /\
  exists v, calculateSubscriptionMRR sub_example = Ok v /\ v == mrr_spec (Items sub_example).
Proof.
  assert (Forall item_ok (Items sub_example)) as Hok.
  { repeat constructor; do 2 eexists; (split; [reflexivity|split; [reflexivity|]]); simpl; lia. }
  split; [exact Hok|].
  exact (proj2 (calculateSubscriptionMRR_agrees sub_example) Hok).
Defined.







Lemma runHandlers_cons (h : EventHandlerFunc) (hs : list EventHandlerFunc) (ev : Event)
  (we : WebhookEvent) :
  runHandlers (h :: hs) ev we =
  match h ev with
  | Some err => runHandlers hs ev (mkWebhookEvent (weID we) (weType we) (weProcessed we) false err)
  | None => runHandlers hs ev we
  end.
Proof. reflexivity. Qed.

Lemma omap_cons_eq (f : EventHandlerFunc -> option string) (h : EventHandlerFunc)
  (hs : list EventHandlerFunc) :
  omap f (h :: hs) = match f h with Some y => y :: omap f hs | None => omap f hs end.
Proof. reflexivity. Qed.

Lemma runHandlers_fields (hs : list EventHandlerFunc) (ev : Event) (we : WebhookEvent) :
  weID (runHandlers hs ev we) = weID we /\
  weType (runHandlers hs ev we) = weType we /\
  weProcessed (runHandlers hs ev we) = weProcessed we /\
  (weSuccess (runHandlers hs ev we) = true <->
   weSuccess we = true /\ Forall (fun h => h ev = None) hs) /\
  weError (runHandlers hs ev we) =
    match last (omap (fun h => h ev) hs) with Some e => e | None => weError we end.
Proof.
  revert we. induction hs as [|h hs IH]; intros we.
  - split; [reflexivity|split; [reflexivity|split; [reflexivity|split]]].
    + split; [intros H; split; [exact H|constructor]|intros [H _]; exact H].
    + reflexivity.
  - rewrite runHandlers_cons, omap_cons_eq.
    destruct (h ev) as [err|] eqn:He.
    + destruct (IH (mkWebhookEvent (weID we) (weType we) (weProcessed we) false err))
        as (H1 & H2 & H3 & H4 & H5).
      split; [exact H1|split; [exact H2|split; [exact H3|split]]].
      * rewrite H4. split; [intros [Hf _]; discriminate|].
        intros [_ Hf]. inversion Hf; congruence.
      * rewrite H5, last_cons. clear.
        destruct (last _); reflexivity.
    + destruct (IH we) as (H1 & H2 & H3 & H4 & H5).
      split; [exact H1|split; [exact H2|split; [exact H3|split]]].
      * rewrite H4. split.
        -- intros [Hs Hf]. split; [exact Hs|constructor; assumption].
        -- intros [Hs Hf]. inversion Hf; subst. split; assumption.
      * exact H5.
Qed.

(** When handlers are registered for the event's type, [processEvent]
    logs one [WebhookEvent] for the event, stamped with the processing
    time: its [Success] is true exactly when every handler returned nil,
    and its [Error] is the message of the last handler that failed (empty
    when none did).  Handlers run in registration order and all run, even
    after a failure. *)
Theorem processEvent_logs_outcome (now : Z) (ev : Event) (w : World)
  (hs : list EventHandlerFunc)
  (Hh : eventHandlers (handler w) !! evType ev = Some hs) (Hne : hs <> []) :
  exists we,
    eventLog (handler (processEvent now ev w)) =
      appendBounded (maxEventLog (handler w)) (eventLog (handler w)) we /\
    weID we = evID ev /\ weType we = evType ev /\ weProcessed we = now /\
    (weSuccess we = true <-> Forall (fun h => h ev = None) hs) /\
    weError we = default "" (last (omap (fun h => h ev) hs)).
Proof.
  unfold processEvent. rewrite Hh. destruct hs as [|h0 hs0]; [contradiction|].
  set (hs := h0 :: hs0).
  exists (runHandlers hs ev (mkWebhookEvent (evID ev) (evType ev) now true "")).
  destruct (runHandlers_fields hs ev (mkWebhookEvent (evID ev) (evType ev) now true ""))
    as (H1 & H2 & H3 & H4 & H5).
  simpl in *. split; [reflexivity|].
  split; [exact H1|split; [exact H2|split; [exact H3|split]]].
  - rewrite H4. split; [intros [_ H]; exact H|intros H; split; [reflexivity|exact H]].
  - rewrite H5. destruct (last (omap (fun h => h ev) hs)); reflexivity.
Qed.


Definition failing (msg : string) : EventHandlerFunc := fun _ => Some msg.
Definition passing : EventHandlerFunc := fun _ => None.

Definition three_handlers : World :=
  mkWorld (RegisterHandler "invoice.paid" passing
           (RegisterHandler "invoice.paid" (failing "second")
            (RegisterHandler "invoice.paid" (failing "first")
             (mkHandler "whsec" ∅ [] 100 None)))) [] [].

Definition paid_event : Event := mkEvent "evt_4" "invoice.paid" true true.

Lemma processEvent_logs_outcome_witness :
  exists we,
    eventLog (handler (processEvent 9 paid_event three_handlers)) =
      appendBounded 100 [] we /\
    weID we = "evt_4" /\ weType we = "invoice.paid" /\ weProcessed we = 9%Z /\
    (weSuccess we = true <-> Forall (fun h => h paid_event = None)
                               [failing "first"; failing "second"; passing]) /\
    weError we = "second".
Proof.
  apply (processEvent_logs_outcome 9 paid_event three_handlers
           [failing "first"; failing "second"; passing]); [reflexivity|discriminate].
Defined.

Lemma processEvent_log_bounded (now : Z) (ev : Event) (w : World) :
  (List.length (eventLog (handler w)) <= maxEventLog (handler w))%nat ->
  (List.length (eventLog (handler (processEvent now ev w))) <=
     maxEventLog (handler (processEvent now ev w)))%nat /\
  maxEventLog (handler (processEvent now ev w)) = maxEventLog (handler w).
Proof.
  intros H. unfold processEvent.
  destruct (eventHandlers (handler w) !! evType ev) as [[|h hs]|]; simpl; [auto|..|auto].
  rewrite StoreMoreFacts.appendBounded_length. split; [lia|reflexivity].
Qed.

(** The event log of the webhook handler [GetWebhookHandler] builds never
    holds more than 100 entries, whatever events are processed. *)
Theorem webhook_event_log_bounded (secret : string) (inv : option CacheInvalidator)
  (now : Z) (evs : list Event) :
  (List.length (eventLog (handler (runEvents now evs
                                     (mkWorld (GetWebhookHandler secret inv) [] [])))) <= 100)%nat.
Proof.
  assert (forall w, (List.length (eventLog (handler w)) <= maxEventLog (handler w))%nat ->
            (List.length (eventLog (handler (runEvents now evs w))) <= maxEventLog (handler w))%nat)
    as Hgen.
  { induction evs as [|ev evs IH]; intros w Hw; simpl; [exact Hw|].
    destruct (processEvent_log_bounded now ev w Hw) as [H1 H2].
    rewrite <- H2. apply IH. exact H1. }
  apply (Hgen (mkWorld (GetWebhookHandler secret inv) [] [])). simpl. lia.
Qed.




End WebhookStoreFacts.
